(** * Job-application server: validation, repository and schema sync

    A shallow embedding of [Backend/server.js]: the request handlers of the
    Express application are pure functions over an explicit database and
    file-system state, JavaScript values are a small inductive type, and
    the builtins whose text is not part of the repository ([JSON.parse],
    [JSON.stringify], [parseFloat], PostgreSQL's input functions) are the
    fields of two interfaces. *)

From Stdlib Require Import ZArith String Ascii List Bool Lia Sorted.
From stdpp Require Import base option list gmap strings pretty.
Import ListNotations.

Local Open Scope string_scope.
Local Open Scope Z_scope.

(** ** JavaScript values *)

(** The values that reach the handlers: what the body parsers put in
    [req.body], what [JSON.parse] returns, and what the handlers hand to
    the database driver.  Strings are UTF-8 byte sequences.  A number is
    kept as the text [Number.prototype.toString] renders it with
    (["2020"], ["1.5"], ["NaN"]): the handlers only test numbers for
    truthiness and convert them to text.  [JObj] is an ordinary object,
    as [JSON.parse] and the JSON and urlencoded body parsers build them,
    listed with its own properties in insertion order; [JDict] is an
    object without prototype, which is what multer builds for the
    bracketed field names of a multipart form. *)
#[warnings="-register-all"]
Inductive JsVal : Type :=
| JUndefined
| JNull
| JBool (b : bool)
| JNum (repr : string)
| JStr (s : string)
| JArr (elems : list JsVal)
| JObj (props : list (string * JsVal))
| JDict (props : list (string * JsVal)).

Definition dquote : string := String (ascii_of_nat 34) EmptyString.

(** [ToBoolean]. *)
Definition truthy (v : JsVal) : bool :=
  match v with
  | JUndefined | JNull => false
  | JBool b => b
  | JNum r => negb (String.eqb r "0") && negb (String.eqb r "NaN")
  | JStr s => negb (String.eqb s EmptyString)
  | JArr _ | JObj _ | JDict _ => true
  end.

(** [v === ''] *)
Definition is_empty_string (v : JsVal) : bool :=
  match v with
  | JStr s => String.eqb s EmptyString
  | _ => false
  end.

(** [typeof v === 'string'] and [Array.isArray(v)] *)
Definition is_string (v : JsVal) : bool :=
  match v with JStr _ => true | _ => false end.

Definition is_array (v : JsVal) : bool :=
  match v with JArr _ => true | _ => false end.

(** Own-property lookup in a property list. *)
Fixpoint assoc {A : Type} (k : string) (l : list (string * A)) : option A :=
  match l with
  | [] => None
  | (k', a) :: l' => if String.eqb k k' then Some a else assoc k l'
  end.

(** Exceptions: [new Error(msg)] and the engine's [TypeError]s. *)
Inductive JsError : Type :=
| Error (msg : string)
| TypeError (msg : string).

Definition message (e : JsError) : string :=
  match e with Error m | TypeError m => m end.

(** [ToString].  An array joins its elements with commas, rendering
    [undefined] and [null] as nothing; an ordinary object answers
    ["[object Object]"] through [Object.prototype.toString] unless an own
    data property named [toString] shadows it, in which case the
    conversion throws a [TypeError] ([None]), as it does on an object
    without prototype. *)
Fixpoint to_string (v : JsVal) : option string :=
  match v with
  | JUndefined => Some "undefined"
  | JNull => Some "null"
  | JBool true => Some "true"
  | JBool false => Some "false"
  | JNum r => Some r
  | JStr s => Some s
  | JArr l =>
      (fix join (l : list JsVal) : option string :=
         match l with
         | [] => Some EmptyString
         | x :: rest =>
             let elem := match x with
                         | JUndefined | JNull => Some EmptyString
                         | _ => to_string x
                         end in
             match elem with
             | None => None
             | Some s =>
                 match rest with
                 | [] => Some s
                 | _ :: _ =>
                     match join rest with
                     | None => None
                     | Some r => Some (s ++ "," ++ r)
                     end
                 end
             end
         end) l
  | JObj ps =>
      match assoc "toString" ps with
      | Some _ => None
      | None => Some "[object Object]"
      end
  | JDict _ => None
  end.

(** Property read [v.name] for a name that no builtin prototype defines
    (the handlers read [institution], [qualification], [year] and
    [percentage]): it throws on [undefined] and [null], finds nothing on
    primitives and arrays, and is an own-property lookup on objects. *)
Definition get_prop (v : JsVal) (name : string) : JsError + JsVal :=
  match v with
  | JUndefined =>
      inl (TypeError ("Cannot read properties of undefined (reading '" ++ name ++ "')"))
  | JNull =>
      inl (TypeError ("Cannot read properties of null (reading '" ++ name ++ "')"))
  | JObj ps | JDict ps => inr (default JUndefined (assoc name ps))
  | _ => inr JUndefined
  end.

(** ** [parseInt(value, 10)] *)

Definition code (c : ascii) : N := N_of_ascii c.

Definition is_digit (c : ascii) : bool :=
  (48 <=? code c)%N && (code c <=? 57)%N.

Definition digit_value (c : ascii) : Z := Z.of_N (code c) - 48.

(** One-byte white space and line terminators: TAB, LF, VT, FF, CR, SP. *)
Definition is_white1 (c : ascii) : bool :=
  ((9 <=? code c)%N && (code c <=? 13)%N) || (code c =? 32)%N.

(** U+00A0 in UTF-8. *)
Definition is_white2 (c1 c2 : ascii) : bool :=
  (code c1 =? 194)%N && (code c2 =? 160)%N.

(** The three-byte ones: U+1680, U+2000..U+200A, U+2028, U+2029, U+202F,
    U+205F, U+3000 and U+FEFF. *)
Definition is_white3 (c1 c2 c3 : ascii) : bool :=
  let a := code c1 in let b := code c2 in let c := code c3 in
  ((a =? 225) && (b =? 154) && (c =? 128))%N
  || ((a =? 226) && (b =? 128)
      && (((128 <=? c) && (c <=? 138)) || (c =? 168) || (c =? 169) || (c =? 175)))%N
  || ((a =? 226) && (b =? 129) && (c =? 159))%N
  || ((a =? 227) && (b =? 128) && (c =? 128))%N
  || ((a =? 239) && (b =? 187) && (c =? 191))%N.

Fixpoint skip_white (s : string) : string :=
  match s with
  | EmptyString => s
  | String c1 s1 =>
      if is_white1 c1 then skip_white s1
      else match s1 with
           | EmptyString => s
           | String c2 s2 =>
               if is_white2 c1 c2 then skip_white s2
               else match s2 with
                    | EmptyString => s
                    | String c3 s3 =>
                        if is_white3 c1 c2 c3 then skip_white s3 else s
                    end
           end
  end.

(** The value of the longest prefix of decimal digits, most significant
    first. *)
Fixpoint read_digits (s : string) (acc : Z) : Z :=
  match s with
  | EmptyString => acc
  | String c s' =>
      if is_digit c then read_digits s' (10 * acc + digit_value c) else acc
  end.

Definition starts_with_digit (s : string) : bool :=
  match s with
  | EmptyString => false
  | String c _ => is_digit c
  end.

(** The numbers [parseInt] can return: a double whose value is an
    integer, given by that value, or an infinity.  The two zeros are not
    told apart: both print as [0]. *)
Inductive Double : Type :=
| Finite (z : Z)
| Infinite (negative : bool).

(** The double nearest to an integer, ties to the even significand: up to
    2^53 in size the integer itself; beyond, its 53 leading bits rounded;
    an infinity from 2^1024 - 2^970 on. *)
Definition to_double (z : Z) : Double :=
  let n := Z.abs z in
  let e := Z.log2 n - 52 in
  if e <=? 0 then Finite z
  else
    let q := Z.shiftr n e in
    let r := Z.land n (Z.ones e) in
    let half := Z.shiftl 1 (e - 1) in
    let q' := if (half <? r) || ((r =? half) && Z.odd q) then q + 1 else q in
    let m := Z.shiftl q' e in
    if Z.shiftl 1 1024 <=? m then Infinite (z <? 0) else Finite (Z.sgn z * m).

(** The integer [parseInt(s, 10)] reads in a string: leading white space,
    an optional sign, then the longest run of decimal digits; [None] when
    no digit is there. *)
Definition read_integer (s : string) : option Z :=
  let s1 := skip_white s in
  let '(negative, s2) :=
    match s1 with
    | String c rest =>
        if (code c =? 45)%N then (true, rest)
        else if (code c =? 43)%N then (false, rest)
        else (false, s1)
    | EmptyString => (false, s1)
    end in
  if starts_with_digit s2
  then Some (if negative then - read_digits s2 0 else read_digits s2 0)
  else None.

(** [parseInt(s, 10)]: the double nearest to the integer read; [None] is
    [NaN]. *)
Definition parseInt10 (s : string) : option Double :=
  match read_integer s with
  | Some z => Some (to_double z)
  | None => None
  end.

(** [Number::toString] on the doubles above: all the digits up to 2^53;
    beyond, the fewest digits [s] and the power of ten [p] for which
    [s * 10^p] rounds to the double, the nearest such [s], written with
    zeros when the numeral has at most 21 digits and with an exponent
    otherwise. *)
Fixpoint shortest (x : Z) (p : nat) : Z * nat :=
  let t := 10 ^ Z.of_nat p in
  let q := x / t in
  let lo := (0 <? q) && match to_double (q * t) with Finite y => y =? x | _ => false end in
  let hi := match to_double ((q + 1) * t) with Finite y => y =? x | _ => false end in
  if lo || hi then
    (if lo && hi
     then (if x - q * t <? (q + 1) * t - x then q
           else if (q + 1) * t - x <? x - q * t then q + 1
           else if Z.even q then q else q + 1)
     else if lo then q else q + 1, p)
  else
    match p with
    | O => (x, O)
    | S p' => shortest x p'
    end.

Fixpoint zeros (n : nat) : string :=
  match n with
  | O => EmptyString
  | S n' => String "0" (zeros n')
  end.

Definition render_positive (x : Z) : string :=
  let '(s, p) := shortest x (String.length (pretty x)) in
  let digits := pretty s in
  let n := (String.length digits + p)%nat in
  if (n <=? 21)%nat then digits ++ zeros p
  else
    match digits with
    | String c EmptyString => digits ++ "e+" ++ pretty (Z.of_nat n - 1)
    | String c rest => String c ("." ++ rest) ++ "e+" ++ pretty (Z.of_nat n - 1)
    | EmptyString => digits
    end.

Definition Number_toString (d : Double) : string :=
  match d with
  | Infinite negative => if negative then "-Infinity" else "Infinity"
  | Finite z =>
      if Z.abs z <=? 2 ^ 53 then pretty z
      else if z <? 0 then "-" ++ render_positive (- z)
      else render_positive z
  end.

(** ** Requests and responses *)

(** The files multer stored for a request: [req.files], with the path of
    the first file of each field. *)
Record Files : Type := {
  resume : option string;
  cover_letter : option string
}.

(** A request: [req.body] as a finite map from field names to values, and
    [req.files], which is [undefined] ([None]) when the request is not a
    multipart one. *)
Record Request : Type := {
  body : gmap string JsVal;
  files : option Files
}.

(** [req.body[field]] *)
Definition field (b : gmap string JsVal) (name : string) : JsVal :=
  default JUndefined (b !! name).

(** [res.status(code).json(payload)] *)
Record Response : Type := {
  status : nat;
  payload : JsVal
}.

(** Where a handler stands after a step: it goes on with a value, it has
    sent a response and returned, or it has thrown. *)
Inductive Outcome (A : Type) : Type :=
| Continue (a : A)
| Respond (r : Response)
| Throw (e : JsError).

Arguments Continue {A} a.
Arguments Respond {A} r.
Arguments Throw {A} e.

#[export] Instance outcome_bind : MBind Outcome := fun A B k m =>
  match m with
  | Continue a => k a
  | Respond r => Respond r
  | Throw e => Throw e
  end.

#[export] Instance outcome_ret : MRet Outcome := fun A a => Continue a.

(** ** The submit handler: required fields *)

Definition requiredFields : list string :=
  [ "full_name"; "email"; "mobile"; "dob"; "parent_name"; "gender"; "nationality";
    "current_address"; "permanent_address"; "state"; "city"; "zipcode"; "emergency_contact";
    "ssc_board"; "ssc_year"; "ssc_percentage"; "job_role"; "preferred_location";
    "notice_period"; "skills"; "experience_status" ].

(** [field => !req.body[field] && req.body[field] !== ''] *)
Definition is_missing (b : gmap string JsVal) (name : string) : bool :=
  negb (truthy (field b name)) && negb (is_empty_string (field b name)).

Definition missingFields (b : gmap string JsVal) : list string :=
  List.filter (is_missing b) requiredFields.

(** [{ success: false, error: err }] *)
Definition json_false_error (err : string) : JsVal :=
  JObj [("success", JBool false); ("error", JStr err)].

Definition missing_response (missing : list string) : Response :=
  {| status := 400;
     payload := JObj [("success", JBool false);
                      ("error", JStr "Missing required fields");
                      ("missing", JArr (map JStr missing))] |}.

(** Lines 327-331: the handler answers 400 with the list when it is not
    empty. *)
Definition check_required (b : gmap string JsVal) : Outcome unit :=
  match missingFields b with
  | [] => Continue tt
  | _ :: _ => Respond (missing_response (missingFields b))
  end.

(** ** Integer sanitation *)

(** [value === '' || value === undefined || value === null] *)
Definition is_blank (v : JsVal) : bool :=
  match v with
  | JUndefined | JNull => true
  | JStr s => String.eqb s EmptyString
  | _ => false
  end.

Definition empty_not_allowed (fieldName : string) : string :=
  "Invalid " ++ fieldName ++ ": empty value not allowed for non-nullable field".

Definition not_an_integer (fieldName shown : string) : string :=
  "Invalid " ++ fieldName ++ ": " ++ dquote ++ shown ++ dquote ++ " is not a valid integer".

(** [sanitizeInteger(value, fieldName, isNullable)]; [None] is [null]. *)
Definition sanitizeInteger (value : JsVal) (fieldName : string) (isNullable : bool)
  : JsError + option Double :=
  if is_blank value then
    if isNullable then inr None
    else inl (Error (empty_not_allowed fieldName))
  else
    match to_string value with
    | None => inl (TypeError "Cannot convert object to primitive value")
    | Some s =>
        match parseInt10 s with
        | None => inl (Error (not_an_integer fieldName s))
        | Some n => inr (Some n)
        end
    end.

(** ** Optional sections *)

(** [req.body[field] && req.body[field] !== ''] *)
Definition filled (v : JsVal) : bool :=
  truthy v && negb (is_empty_string v).

(** [validateEducationSection(fields)] *)
Definition validateEducationSection (b : gmap string JsVal) (fields : list string) : bool :=
  let hasValue := existsb (fun f => filled (field b f)) fields in
  if hasValue then forallb (fun f => filled (field b f)) fields else true.

Definition intermediate_group : list string :=
  [ "intermediate_board"; "intermediate_year"; "intermediate_percentage" ].

Definition graduation_group : list string :=
  [ "college_name"; "qualification"; "branch"; "graduation_year"; "graduation_percentage" ].

Definition experience_group : list string :=
  [ "years_experience"; "company_name"; "designation"; "work_location";
    "start_date"; "end_date" ].

Definition intermediateValid (b : gmap string JsVal) : bool :=
  validateEducationSection b intermediate_group.

Definition graduationValid (b : gmap string JsVal) : bool :=
  validateEducationSection b graduation_group.

(** [experience_status === 'Experienced'] *)
Definition is_experienced (b : gmap string JsVal) : bool :=
  match field b "experience_status" with
  | JStr s => String.eqb s "Experienced"
  | _ => false
  end.

(** [!experienceValid] is taken of the value of
    [experience_status !== 'Experienced' || (years_experience && ... && end_date)],
    which is truthy exactly when the status differs or all six are. *)
Definition experienceValid (b : gmap string JsVal) : bool :=
  negb (is_experienced b)
  || (truthy (field b "years_experience") && truthy (field b "company_name")
      && truthy (field b "designation") && truthy (field b "work_location")
      && truthy (field b "start_date") && truthy (field b "end_date")).

(** [res.status(400).json({ success: false, error: err })] *)
Definition bad_request (err : string) : Response :=
  {| status := 400; payload := json_false_error err |}.

(** Lines 366-369. *)
Definition check_optional_sections (b : gmap string JsVal) : Outcome unit :=
  if negb (intermediateValid b) || negb (graduationValid b) || negb (experienceValid b)
  then Respond (bad_request "Incomplete optional section data")
  else Continue tt.

(** ** Builtins of the runtime *)

(** The builtins the handlers call and the repository does not define.
    [JSON_parse] answers [None] where [JSON.parse] throws. *)
Class JsRuntime : Type := {
  JSON_parse : string -> option JsVal;
  JSON_stringify : JsVal -> string;
  parseFloat : string -> JsVal
}.

(** A call that returns or throws, as a step of a handler. *)
Definition lift {A : Type} (r : JsError + A) : Outcome A :=
  match r with
  | inl e => Throw e
  | inr a => Continue a
  end.

(** The result of [sanitizeInteger] as a value: [null] or a number. *)
Definition int_param (n : option Double) : JsVal :=
  match n with
  | None => JNull
  | Some d => JNum (Number_toString d)
  end.

Section Submit.
Context `{JsRuntime}.

(** Lines 372-384: decoding of [additional_education]. *)
Definition decode_additional_education (v : JsVal) : Outcome (list JsVal) :=
  if truthy v then
    let decoded := match v with
                   | JStr s => JSON_parse s
                   | _ => Some v
                   end in
    match decoded with
    | Some (JArr es) => Continue es
    | _ => Respond (bad_request "Invalid additional_education format")
    end
  else Continue [].

(** [!edu.institution || !edu.qualification || !edu.year || !edu.percentage] *)
Definition entry_incomplete (edu : JsVal) : JsError + bool :=
  match get_prop edu "institution" with
  | inl e => inl e
  | inr i =>
      if negb (truthy i) then inr true else
      match get_prop edu "qualification" with
      | inl e => inl e
      | inr q =>
          if negb (truthy q) then inr true else
          match get_prop edu "year" with
          | inl e => inl e
          | inr y =>
              if negb (truthy y) then inr true else
              match get_prop edu "percentage" with
              | inl e => inl e
              | inr p => inr (negb (truthy p))
              end
          end
      end
  end.

(** The loop of lines 386-391. *)
Fixpoint check_entries (es : list JsVal) : Outcome unit :=
  match es with
  | [] => Continue tt
  | edu :: rest =>
      match entry_incomplete edu with
      | inl e => Throw e
      | inr true => Respond (bad_request "Incomplete additional education data")
      | inr false => check_entries rest
      end
  end.

(** [req.files[name] ? req.files[name][0].path : null] *)
Definition file_path (fs : option Files) (name : string)
           (get : Files -> option string) : Outcome JsVal :=
  match fs with
  | None =>
      Throw (TypeError ("Cannot read properties of undefined (reading '" ++ name ++ "')"))
  | Some f =>
      Continue (match get f with
                | Some p => JStr p
                | None => JNull
                end)
  end.

(** [v ? parseFloat(v) : null] *)
Definition float_or_null (v : JsVal) : Outcome JsVal :=
  if truthy v then
    match to_string v with
    | None => Throw (TypeError "Cannot convert object to primitive value")
    | Some s => Continue (parseFloat s)
    end
  else Continue JNull.

(** The columns of the [INSERT] statement, in its order. *)
Definition insert_columns : list string :=
  [ "full_name"; "email"; "mobile"; "dob"; "parent_name"; "gender"; "nationality";
    "marital_status"; "current_address"; "permanent_address"; "state"; "city";
    "zipcode"; "emergency_contact"; "ssc_board"; "ssc_year"; "ssc_percentage";
    "intermediate_board"; "intermediate_year"; "intermediate_percentage";
    "college_name"; "qualification"; "branch"; "graduation_year";
    "graduation_percentage"; "additional_education"; "job_role";
    "preferred_location"; "notice_period"; "expected_salary"; "skills";
    "experience_status"; "years_experience"; "company_name"; "designation";
    "work_location"; "start_date"; "end_date"; "last_salary"; "alt_mobile";
    "linkedin"; "github"; "certifications"; "reference_name"; "reference_email";
    "resume_path"; "cover_letter_path"; "submission_date"; "status" ].

(** The [values] array of lines 421-432. *)
Definition values (b : gmap string JsVal)
           (sanitizedSscYear sanitizedIntermediateYear sanitizedGraduationYear
              sanitizedYearsExperience : option Double)
           (additionalEducation : list JsVal)
           (resumePath coverLetterPath expectedSalary lastSalary : JsVal)
           (now : string) : list JsVal :=
  let f := field b in
  [ f "full_name"; f "email"; f "mobile"; f "dob"; f "parent_name"; f "gender";
    f "nationality"; f "marital_status"; f "current_address";
    f "permanent_address"; f "state"; f "city"; f "zipcode";
    f "emergency_contact"; f "ssc_board"; int_param sanitizedSscYear;
    f "ssc_percentage"; f "intermediate_board";
    int_param sanitizedIntermediateYear; f "intermediate_percentage";
    f "college_name"; f "qualification"; f "branch";
    int_param sanitizedGraduationYear; f "graduation_percentage";
    JStr (JSON_stringify (JArr additionalEducation)); f "job_role";
    f "preferred_location"; f "notice_period"; expectedSalary; f "skills";
    f "experience_status"; int_param sanitizedYearsExperience;
    f "company_name"; f "designation"; f "work_location"; f "start_date";
    f "end_date"; lastSalary; f "alt_mobile"; f "linkedin"; f "github";
    f "certifications"; f "reference_name"; f "reference_email";
    resumePath; coverLetterPath; JStr now; JStr "Pending" ].

(** Everything the submit handler does before it queries the database
    (lines 299-432): either the [values] array of the [INSERT], a
    response already sent, or an exception for the handler's [catch].
    [now] is the text the driver sends for the [Date] the clock gives. *)
Definition validate (req : Request) (now : string) : Outcome (list JsVal) :=
  let b := body req in
  let f := field b in
  _ ← check_required b;
  sanitizedSscYear ← lift (sanitizeInteger (f "ssc_year") "ssc_year" false);
  sanitizedIntermediateYear ←
    lift (sanitizeInteger (f "intermediate_year") "intermediate_year" true);
  sanitizedGraduationYear ←
    lift (sanitizeInteger (f "graduation_year") "graduation_year" true);
  sanitizedYearsExperience ←
    lift (sanitizeInteger (f "years_experience") "years_experience" true);
  _ ← check_optional_sections b;
  additionalEducation ← decode_additional_education (f "additional_education");
  _ ← check_entries additionalEducation;
  resumePath ← file_path (files req) "resume" resume;
  coverLetterPath ← file_path (files req) "cover_letter" cover_letter;
  _ ← (if negb (truthy resumePath)
       then Respond (bad_request "Resume is required") else Continue tt);
  expectedSalary ← float_or_null (f "expected_salary");
  lastSalary ← float_or_null (f "last_salary");
  Continue (values b sanitizedSscYear sanitizedIntermediateYear
                   sanitizedGraduationYear sanitizedYearsExperience
                   additionalEducation resumePath coverLetterPath
                   expectedSalary lastSalary now).

End Submit.

(** ** The applications table *)

(** Structural equality of values, used to compare stored column values. *)
Fixpoint JsVal_eqb (a b : JsVal) : bool :=
  match a, b with
  | JUndefined, JUndefined => true
  | JNull, JNull => true
  | JBool x, JBool y => Bool.eqb x y
  | JNum x, JNum y => String.eqb x y
  | JStr x, JStr y => String.eqb x y
  | JArr l1, JArr l2 =>
      (fix go (l1 l2 : list JsVal) : bool :=
         match l1, l2 with
         | [], [] => true
         | x :: xs, y :: ys => JsVal_eqb x y && go xs ys
         | _, _ => false
         end) l1 l2
  | JObj p1, JObj p2 =>
      (fix go (p1 p2 : list (string * JsVal)) : bool :=
         match p1, p2 with
         | [], [] => true
         | (k1, x) :: xs, (k2, y) :: ys =>
             String.eqb k1 k2 && JsVal_eqb x y && go xs ys
         | _, _ => false
         end) p1 p2
  | JDict p1, JDict p2 =>
      (fix go (p1 p2 : list (string * JsVal)) : bool :=
         match p1, p2 with
         | [], [] => true
         | (k1, x) :: xs, (k2, y) :: ys =>
             String.eqb k1 k2 && JsVal_eqb x y && go xs ys
         | _, _ => false
         end) p1 p2
  | _, _ => false
  end.

(** A row: the generated [id] and the other columns by name, in the order
    of the [INSERT]. *)
Record Row : Type := {
  row_id : Z;
  row_cols : list (string * JsVal)
}.

(** The table and the next value of the sequence behind [id SERIAL]. *)
Record Db : Type := {
  rows : list Row;
  next_id : Z
}.

Definition column (r : Row) (name : string) : JsVal :=
  default JNull (assoc name (row_cols r)).

(** [obj[k] = v] on a property list: in place when the key exists. *)
Fixpoint set_prop (k : string) (v : JsVal) (l : list (string * JsVal))
  : list (string * JsVal) :=
  match l with
  | [] => [(k, v)]
  | (k', a) :: l' =>
      if String.eqb k k' then (k', v) :: l' else (k', a) :: set_prop k v l'
  end.

(** The object the driver builds for a row of [SELECT *]. *)
Definition row_object (r : Row) : list (string * JsVal) :=
  ("id", JNum (pretty (row_id r))) :: row_cols r.

(** The columns declared [NOT NULL] by [createApplicationsTable], [id]
    apart. *)
Definition not_null_columns : list string :=
  [ "full_name"; "email"; "mobile"; "dob"; "parent_name"; "gender"; "nationality";
    "current_address"; "permanent_address"; "state"; "city"; "zipcode";
    "emergency_contact"; "ssc_board"; "ssc_year"; "ssc_percentage"; "job_role";
    "preferred_location"; "notice_period"; "skills"; "experience_status";
    "resume_path"; "submission_date" ].

(** What the database server decides and the repository does not define:
    the reading of an [id] parameter as an integer, the reading of a text
    as [jsonb] (the value the driver later hands back), and whether the
    input functions of the other column types refuse a row (with the
    message of the refusal). *)
Class Postgres : Type := {
  int4_in : string -> option Z;
  jsonb_in : string -> option JsVal;
  input_error : list (string * JsVal) -> option string
}.

Inductive DbError : Type :=
| DataException (msg : string)
| NotNullViolation (col : string)
| UniqueViolation (constraint : string).

Definition db_message (e : DbError) : string :=
  match e with
  | DataException m => m
  | NotNullViolation c =>
      "null value in column " ++ dquote ++ c ++ dquote
      ++ " of relation " ++ dquote ++ "applications" ++ dquote
      ++ " violates not-null constraint"
  | UniqueViolation c =>
      "duplicate key value violates unique constraint " ++ dquote ++ c ++ dquote
  end.

(** The driver sends [undefined] as [NULL]. *)
Definition prepareValue (v : JsVal) : JsVal :=
  match v with
  | JUndefined => JNull
  | _ => v
  end.

Definition is_null (v : JsVal) : bool :=
  match v with JNull => true | _ => false end.

Definition email_taken (db : Db) (email : JsVal) : bool :=
  existsb (fun r => JsVal_eqb (column r "email") email) (rows db).

Section Repository.
Context `{JsRuntime} `{Postgres}.

(** The [jsonb] column keeps the decoded value of the text it is given. *)
Definition store_jsonb (cols : list (string * JsVal)) : option (list (string * JsVal)) :=
  match assoc "additional_education" cols with
  | Some (JStr text) =>
      match jsonb_in text with
      | Some v => Some (set_prop "additional_education" v cols)
      | None => None
      end
  | Some JNull | None => Some cols
  | Some _ => None
  end.

(** The [INSERT ... RETURNING id] of the submit handler against the
    table of [createApplicationsTable]: input conversion first, then the
    sequence is advanced, then [NOT NULL] and the unique index on
    [email] are checked.  The primary key needs no check: every [id] comes
    from the sequence ([fresh_ids] below, kept by every handler). *)
Definition insert_application (db : Db) (values : list JsVal) : Db * (DbError + Z) :=
  let cols := combine insert_columns (map prepareValue values) in
  match input_error cols with
  | Some msg => (db, inl (DataException msg))
  | None =>
      match store_jsonb cols with
      | None => (db, inl (DataException "invalid input syntax for type json"))
      | Some cols' =>
          let id := next_id db in
          let db1 := {| rows := rows db; next_id := id + 1 |} in
          match List.find (fun c => is_null (default JNull (assoc c cols'))) not_null_columns with
          | Some c => (db1, inl (NotNullViolation c))
          | None =>
              if email_taken db (default JNull (assoc "email" cols'))
              then (db1, inl (UniqueViolation "applications_email_key"))
              else ({| rows := rows db ++ [ {| row_id := id; row_cols := cols' |} ];
                       next_id := id + 1 |}, inr id)
          end
      end
  end.

Definition ok (props : list (string * JsVal)) : Response :=
  {| status := 200; payload := JObj (("success", JBool true) :: props) |}.

Definition server_error (msg : string) : Response :=
  {| status := 500; payload := json_false_error msg |}.

Definition not_found : Response :=
  {| status := 404; payload := json_false_error "Application not found" |}.

(** [POST /api/submit] *)
Definition submit (db : Db) (req : Request) (now : string) : Db * Response :=
  match validate req now with
  | Continue values =>
      match insert_application db values with
      | (db', inr id) =>
          (db', ok [("id", JNum (pretty id));
                    ("message", JStr "Application submitted successfully")])
      | (db', inl e) => (db', server_error (db_message e))
      end
  | Respond r => (db, r)
  | Throw e => (db, server_error (message e))
  end.

Definition invalid_integer (text : string) : string :=
  "invalid input syntax for type integer: " ++ dquote ++ text ++ dquote.

(** [WHERE id = $1] *)
Definition select_by_id (db : Db) (n : Z) : list Row :=
  List.filter (fun r => row_id r =? n) (rows db).

(** Lines 466-481: what the fetch handler makes of the stored
    [additional_education]. *)
Definition normalize_additional_education (v : JsVal) : JsVal :=
  if truthy v then
    match v with
    | JStr s =>
        match JSON_parse s with
        | Some (JArr es) => JArr es
        | _ => JArr []
        end
    | JArr es => JArr es
    | _ => JArr []
    end
  else JArr [].

(** [GET /api/applications/:id] *)
Definition get_application (db : Db) (id : string) : Response :=
  match int4_in id with
  | None => server_error (invalid_integer id)
  | Some n =>
      match select_by_id db n with
      | [] => not_found
      | r :: _ =>
          let application :=
            set_prop "additional_education"
              (normalize_additional_education (column r "additional_education"))
              (row_object r) in
          ok [("application", JObj application)]
      end
  end.

Definition allowed_statuses : list string :=
  [ "Pending"; "Approved"; "Rejected"; "Under Review" ].

(** [['Pending', 'Approved', 'Rejected', 'Under Review'].includes(status)] *)
Definition status_allowed (v : JsVal) : bool :=
  match v with
  | JStr s => existsb (String.eqb s) allowed_statuses
  | _ => false
  end.

Definition set_status (status : JsVal) (n : Z) (r : Row) : Row :=
  if row_id r =? n
  then {| row_id := row_id r; row_cols := set_prop "status" status (row_cols r) |}
  else r.

(** [PUT /api/applications/:id/status] *)
Definition update_status (db : Db) (id : string) (b : gmap string JsVal) : Db * Response :=
  let status := field b "status" in
  if negb (status_allowed status) then (db, bad_request "Invalid status")
  else
    match int4_in id with
    | None => (db, server_error (invalid_integer id))
    | Some n =>
        match select_by_id db n with
        | [] => (db, not_found)
        | r :: _ =>
            ({| rows := map (set_status status n) (rows db); next_id := next_id db |},
             ok [("id", JNum (pretty (row_id r)))])
        end
    end.

End Repository.

(** ** Attachments on disk *)

(** The files the handlers may touch: each path with the message of the
    error [unlink] raises on it, if it does ([EACCES], [EPERM], [EBUSY],
    ...), and the error of reading the upload directory, if any. *)
Record Fs : Type := {
  readdir_error : option string;
  entries : list (string * option string)
}.

Definition existsSync (fs : Fs) (p : string) : bool :=
  match assoc p (entries fs) with
  | Some _ => true
  | None => false
  end.

Definition remove_entry (p : string) (fs : Fs) : Fs :=
  {| readdir_error := readdir_error fs;
     entries := List.filter (fun e => negb (String.eqb p (fst e))) (entries fs) |}.

(** [fs.unlinkSync(p)], and [fs.unlink(p, cb)] with the error given to
    [cb]. *)
Definition unlink (fs : Fs) (p : string) : string + Fs :=
  match assoc p (entries fs) with
  | None => inl ("ENOENT: no such file or directory, unlink '" ++ p ++ "'")
  | Some (Some msg) => inl msg
  | Some None => inr (remove_entry p fs)
  end.

Fixpoint strip_prefix (pre s : string) : option string :=
  match pre, s with
  | EmptyString, _ => Some s
  | String a pre', String b s' => if Ascii.eqb a b then strip_prefix pre' s' else None
  | String _ _, EmptyString => None
  end.

Fixpoint has_slash (s : string) : bool :=
  match s with
  | EmptyString => false
  | String c s' => (code c =? 47)%N || has_slash s'
  end.

(** [path.join(dir, name)] for a plain file name. *)
Definition path_join (dir name : string) : string := dir ++ "/" ++ name.

(** The names [readdir(dir)] lists: the entries directly inside [dir]. *)
Definition readdir (fs : Fs) (dir : string) : string + list string :=
  match readdir_error fs with
  | Some msg => inl msg
  | None =>
      inr (omap (fun e =>
                   match strip_prefix (dir ++ "/") (fst e) with
                   | Some name =>
                       if has_slash name || String.eqb name EmptyString
                       then None else Some name
                   | None => None
                   end) (entries fs))
  end.

Section Cleanup.
Context `{Postgres}.
Variable uploadDir : string.

(** [if (p && fs.existsSync(p)) fs.unlinkSync(p)] *)
Definition unlink_if_present (fs : Fs) (p : JsVal) : string + Fs :=
  match p with
  | JStr path =>
      if truthy p && existsSync fs path then unlink fs path else inr fs
  | _ => inr fs
  end.

(** [DELETE /api/applications/:id]: the new table and files, the
    response, and the lines written with [console.error]. *)
Definition delete_application (db : Db) (fs : Fs) (id : string)
  : Db * Fs * Response * list string :=
  match int4_in id with
  | None =>
      (db, fs, server_error (invalid_integer id),
       [ "Error deleting application: " ++ invalid_integer id ])
  | Some n =>
      match select_by_id db n with
      | [] =>
          (db, fs, not_found, [ "Application with ID " ++ id ++ " not found" ])
      | r :: _ =>
          let db' := {| rows := List.filter (fun r => negb (row_id r =? n)) (rows db);
                        next_id := next_id db |} in
          match unlink_if_present fs (column r "resume_path") with
          | inl msg =>
              (db', fs, server_error msg, [ "Error deleting application: " ++ msg ])
          | inr fs1 =>
              match unlink_if_present fs1 (column r "cover_letter_path") with
              | inl msg =>
                  (db', fs1, server_error msg, [ "Error deleting application: " ++ msg ])
              | inr fs2 =>
                  (db', fs2,
                   ok [("id", JNum (pretty (row_id r)));
                       ("message", JStr "Application deleted successfully")],
                   [])
              end
          end
      end
  end.

(** The callback of [fs.readdir] in the clear handler: every listed file
    is unlinked, a failure is written to the console and nothing else. *)
Fixpoint unlink_all (fs : Fs) (names : list string) : Fs * list string :=
  match names with
  | [] => (fs, [])
  | file :: rest =>
      match unlink fs (path_join uploadDir file) with
      | inl msg =>
          let '(fs', log) := unlink_all fs rest in
          (fs', ("Error deleting file: " ++ msg) :: log)
      | inr fs1 => unlink_all fs1 rest
      end
  end.

(** [DELETE /api/clear], once the file callbacks have run. *)
Definition clear_applications (db : Db) (fs : Fs) : Db * Fs * Response * list string :=
  let '(fs', log) :=
    match readdir fs uploadDir with
    | inl msg => (fs, [ "Error reading upload directory: " ++ msg ])
    | inr names => unlink_all fs names
    end in
  ({| rows := []; next_id := 1 |}, fs',
   ok [("message", JStr "All applications cleared successfully")], log).

End Cleanup.

(** ** Schema synchronisation *)

(** An entry of [expectedColumns]; [nullable] is [undefined] for [id]. *)
Record Column : Type := {
  name : string;
  type : string;
  nullable : JsVal;
  defaultValue : JsVal
}.

Definition col (n t : string) (nl : bool) (d : JsVal) : Column :=
  {| name := n; type := t; nullable := JBool nl; defaultValue := d |}.

Definition expectedColumns : list Column :=
  [ {| name := "id"; type := "SERIAL PRIMARY KEY"; nullable := JUndefined;
       defaultValue := JNull |};
    col "full_name" "VARCHAR(255)" false (JStr EmptyString);
    col "email" "VARCHAR(255)" false (JStr EmptyString);
    col "mobile" "VARCHAR(20)" false (JStr EmptyString);
    col "dob" "DATE" false (JStr "1970-01-01");
    col "parent_name" "VARCHAR(255)" false (JStr EmptyString);
    col "gender" "VARCHAR(50)" false (JStr EmptyString);
    col "nationality" "VARCHAR(100)" false (JStr EmptyString);
    col "marital_status" "VARCHAR(50)" true JNull;
    col "current_address" "TEXT" false (JStr EmptyString);
    col "permanent_address" "TEXT" false (JStr EmptyString);
    col "state" "VARCHAR(100)" false (JStr EmptyString);
    col "city" "VARCHAR(100)" false (JStr EmptyString);
    col "zipcode" "VARCHAR(20)" false (JStr EmptyString);
    col "emergency_contact" "VARCHAR(255)" false (JStr EmptyString);
    col "ssc_board" "VARCHAR(255)" false (JStr EmptyString);
    col "ssc_year" "INTEGER" false (JNum "0");
    col "ssc_percentage" "VARCHAR(10)" false (JStr EmptyString);
    col "intermediate_board" "VARCHAR(255)" true JNull;
    col "intermediate_year" "INTEGER" true JNull;
    col "intermediate_percentage" "VARCHAR(10)" true JNull;
    col "college_name" "VARCHAR(255)" true JNull;
    col "qualification" "VARCHAR(255)" true JNull;
    col "branch" "VARCHAR(255)" true JNull;
    col "graduation_year" "INTEGER" true JNull;
    col "graduation_percentage" "VARCHAR(10)" true JNull;
    col "additional_education" "JSONB" true JNull;
    col "job_role" "VARCHAR(255)" false (JStr EmptyString);
    col "preferred_location" "VARCHAR(255)" false (JStr EmptyString);
    col "notice_period" "VARCHAR(100)" false (JStr EmptyString);
    col "expected_salary" "NUMERIC" true JNull;
    col "skills" "TEXT" false (JStr EmptyString);
    col "experience_status" "VARCHAR(50)" false (JStr EmptyString);
    col "years_experience" "INTEGER" true JNull;
    col "company_name" "VARCHAR(255)" true JNull;
    col "designation" "VARCHAR(255)" true JNull;
    col "work_location" "VARCHAR(255)" true JNull;
    col "start_date" "VARCHAR(20)" true JNull;
    col "end_date" "VARCHAR(20)" true JNull;
    col "last_salary" "NUMERIC" true JNull;
    col "alt_mobile" "VARCHAR(20)" true JNull;
    col "linkedin" "VARCHAR(255)" true JNull;
    col "github" "VARCHAR(255)" true JNull;
    col "certifications" "TEXT" true JNull;
    col "reference_name" "VARCHAR(255)" true JNull;
    col "reference_email" "VARCHAR(255)" true JNull;
    col "resume_path" "VARCHAR(255)" false (JStr EmptyString);
    col "cover_letter_path" "VARCHAR(255)" true JNull;
    col "submission_date" "TIMESTAMP" false (JStr "CURRENT_TIMESTAMP");
    col "status" "VARCHAR(50)" true (JStr "Pending") ].

(** [hay.includes(needle)] *)
Fixpoint includes (needle hay : string) : bool :=
  match strip_prefix needle hay with
  | Some _ => true
  | None =>
      match hay with
      | EmptyString => false
      | String _ hay' => includes needle hay'
      end
  end.

(** The statements the synchroniser sends. *)
Inductive Statement : Type :=
| CreateTable
| AddColumn (column_name type_sql default_clause : string)
| Backfill (column_name : string) (value : JsVal)
| SetNotNull (column_name : string).

Definition text_like (t : string) : bool :=
  includes "VARCHAR" t || includes "TEXT" t || includes "JSONB" t.

(** The [DEFAULT] clause of [ADD COLUMN]: quoted for the text-like types,
    bare for the others, absent when [defaultValue] is falsy. *)
Definition default_clause (c : Column) : string :=
  if truthy (defaultValue c) then
    let d := default EmptyString (to_string (defaultValue c)) in
    if text_like (type c) then "DEFAULT '" ++ d ++ "'" else "DEFAULT " ++ d
  else EmptyString.

(** [col.defaultValue !== null && col.type !== 'SERIAL PRIMARY KEY'] *)
Definition backfills (c : Column) : bool :=
  negb (is_null (defaultValue c)) && negb (String.eqb (type c) "SERIAL PRIMARY KEY").

(** [col.nullable === false] *)
Definition not_nullable (c : Column) : bool :=
  match nullable c with
  | JBool false => true
  | _ => false
  end.

(** The queries of one turn of the loop over [missingColumns], in order.
    No expected type mentions [NOT NULL] or has outer blanks, so
    [col.type.replace('NOT NULL', '').trim()] is [col.type]. *)
Definition statements_for (c : Column) : list Statement :=
  AddColumn (name c) (type c) (default_clause c)
  :: ((if backfills c then [ Backfill (name c) (defaultValue c) ] else [])
      ++ (if not_nullable c then [ SetNotNull (name c) ] else []))%list.

(** [expectedColumns.filter(col => !existingColumns.some(ex => ex.name === col.name))] *)
Definition missingColumns (existing_names : list string) : list Column :=
  List.filter (fun e => negb (existsb (String.eqb (name e)) existing_names)) expectedColumns.

(** How an [async] function ends. *)
Inductive Settled : Type :=
| Resolved
| Rejected (msg : string).

(** What a run of the synchroniser leaves: the catalog, the statements it
    sent in order, the console lines, and how the call settled. *)
Record Run (Catalog : Type) : Type := {
  catalog : Catalog;
  issued : list Statement;
  console : list string;
  settled : Settled
}.

Arguments catalog {Catalog} r.
Arguments issued {Catalog} r.
Arguments console {Catalog} r.
Arguments settled {Catalog} r.

Section Schema.
(** The state of the database catalog and the server's execution of a
    statement on it ([inl] is the message of the error [pool.query]
    rejects with); [existing] is the answer to the
    [information_schema.columns] query, the column names or the error. *)
Variable Catalog : Type.
Variable exec : Statement -> Catalog -> string + Catalog.
Variable existing : Catalog -> string + list string.

(** Sends the statements in order and stops at the first that fails. *)
Fixpoint send (ss : list Statement) (c : Catalog)
  : Catalog * list Statement * option string :=
  match ss with
  | [] => (c, [], None)
  | q :: rest =>
      match exec q c with
      | inl msg => (c, [q], Some msg)
      | inr c1 =>
          let '(c2, sent, err) := send rest c1 in
          (c2, q :: sent, err)
      end
  end.

(** The [for] loop of [syncApplicationsTable]: an error leaves the loop. *)
Fixpoint add_columns (missing : list Column) (c : Catalog)
  : Catalog * list Statement * list string * option string :=
  match missing with
  | [] => (c, [], [], None)
  | m :: rest =>
      match send (statements_for m) c with
      | (c1, sent, Some msg) => (c1, sent, [], Some msg)
      | (c1, sent, None) =>
          let '(c2, sent', log, err) := add_columns rest c1 in
          (c2, (sent ++ sent')%list,
           ("Added column " ++ name m ++ " to applications table") :: log, err)
      end
  end.

(** The statements of the whole loop when nothing fails. *)
Definition plan (missing : list Column) : list Statement :=
  flat_map statements_for missing.

(** [syncApplicationsTable]: the whole body sits in one [try], whose
    [catch] writes the error to the console. *)
Definition syncApplicationsTable (c : Catalog) : Run Catalog :=
  match existing c with
  | inl msg =>
      {| catalog := c; issued := [];
         console := [ "Error syncing applications table: " ++ msg ];
         settled := Resolved |}
  | inr names =>
      let '(c1, sent, log, err) := add_columns (missingColumns names) c in
      {| catalog := c1; issued := sent;
         console := List.app log
                      match err with
                      | Some msg => [ "Error syncing applications table: " ++ msg ]
                      | None => []
                      end;
         settled := Resolved |}
  end.

(** [createApplicationsTable]: logs and rethrows. *)
Definition createApplicationsTable (c : Catalog) : Run Catalog :=
  match exec CreateTable c with
  | inl msg =>
      {| catalog := c; issued := [ CreateTable ];
         console := [ "Error creating applications table: " ++ msg ];
         settled := Rejected msg |}
  | inr c1 =>
      {| catalog := c1; issued := [ CreateTable ];
         console := [ "Applications table created or already exists" ];
         settled := Resolved |}
  end.

(** The start of the process: the promise chain on [pool.connect()],
    whose rejection is only logged, and [app.listen], which does not wait
    for it.  [listening] tells whether [app.listen] was reached. *)
Record Startup : Type := {
  after : Run Catalog;
  listening : bool
}.

Definition startup (connect_error : option string) (c : Catalog) : Startup :=
  let chain :=
    match connect_error with
    | Some msg =>
        {| catalog := c; issued := [];
           console := [ "Database connection error: " ++ msg ];
           settled := Resolved |}
    | None =>
        let created := createApplicationsTable c in
        match settled created with
        | Rejected msg =>
            {| catalog := catalog created; issued := issued created;
               console := "Database connected successfully"
                          :: List.app (console created)
                               [ "Database connection error: " ++ msg ];
               settled := Resolved |}
        | Resolved =>
            let synced := syncApplicationsTable (catalog created) in
            {| catalog := catalog synced;
               issued := (issued created ++ issued synced)%list;
               console := "Database connected successfully"
                          :: (console created ++ console synced)%list;
               settled := settled synced |}
        end
    end in
  {| after := chain; listening := true |}.

End Schema.

(** ** Sample inputs *)

(** Stand-ins for the builtins, right on the values the examples below
    use: one list of additional education and the empty one. *)
Definition quoted (s : string) : string := dquote ++ s ++ dquote.

Definition sample_entry : JsVal :=
  JObj [("institution", JStr "X"); ("qualification", JStr "Y");
        ("year", JStr "2020"); ("percentage", JStr "80")].

Definition sample_text : string :=
  "[{" ++ quoted "institution" ++ ":" ++ quoted "X" ++ ","
  ++ quoted "qualification" ++ ":" ++ quoted "Y" ++ ","
  ++ quoted "year" ++ ":" ++ quoted "2020" ++ ","
  ++ quoted "percentage" ++ ":" ++ quoted "80" ++ "}]".

Definition sample_runtime : JsRuntime :=
  {| JSON_parse s :=
       if String.eqb s sample_text then Some (JArr [sample_entry])
       else if String.eqb s "[]" then Some (JArr [])
       else None;
     JSON_stringify v :=
       if JsVal_eqb v (JArr [sample_entry]) then sample_text else "[]";
     parseFloat s := JNum s |}.

Definition sample_postgres : Postgres :=
  {| int4_in := read_integer;
     jsonb_in := @JSON_parse sample_runtime;
     input_error := fun _ => None |}.



(** A form with every required field and nothing else. *)
Definition sample_body : gmap string JsVal :=
  list_to_map
    (map (fun f => (f, JStr (if String.eqb f "ssc_year" then "2015"
                             else if String.eqb f "email" then "asha@example.org"
                             else "x")))
         requiredFields).

Definition sample_files : option Files :=
  Some {| resume := Some "/srv/Uploads/resume-1.pdf"; cover_letter := None |}.

Definition sample_request : Request :=
  {| body := sample_body; files := sample_files |}.

Definition with_field (k : string) (v : JsVal) (req : Request) : Request :=
  {| body := <[k := v]> (body req); files := files req |}.

Definition without_field (k : string) (req : Request) : Request :=
  {| body := delete k (body req); files := files req |}.

Definition empty_db : Db := {| rows := []; next_id := 1 |}.

Definition sample_now : string := "2026-01-01T00:00:00.000Z".

(** ** Notions used in the statements *)

(** A group of fields is partially filled when the test of
    [validateEducationSection] holds of one of its fields and fails of
    another; it is entirely absent, or entirely present, when the test
    fails, or holds, throughout. *)
Definition partially_filled (b : gmap string JsVal) (group : list string) : Prop :=
  (exists f, In f group /\ filled (field b f) = true)
  /\ (exists f, In f group /\ filled (field b f) = false).

Definition entirely_absent (b : gmap string JsVal) (group : list string) : Prop :=
  forall f, In f group -> filled (field b f) = false.

Definition entirely_present (b : gmap string JsVal) (group : list string) : Prop :=
  forall f, In f group -> filled (field b f) = true.

Definition is_inr {A B : Type} (r : A + B) : bool :=
  match r with inr _ => true | inl _ => false end.

(** The four calls of [sanitizeInteger] all return. *)
Definition passes_sanitation (b : gmap string JsVal) : bool :=
  is_inr (sanitizeInteger (field b "ssc_year") "ssc_year" false)
  && is_inr (sanitizeInteger (field b "intermediate_year") "intermediate_year" true)
  && is_inr (sanitizeInteger (field b "graduation_year") "graduation_year" true)
  && is_inr (sanitizeInteger (field b "years_experience") "years_experience" true).

(** What it takes for the validation of a request to go through, stage
    by stage, with the values it computes on the way. *)
Record Passes `{JsRuntime} (req : Request)
       (y i g e : option Double) (es : list JsVal) (rp cl xs ls : JsVal) : Prop := {
  passes_required : missingFields (body req) = [];
  passes_ssc_year :
    sanitizeInteger (field (body req) "ssc_year") "ssc_year" false = inr y;
  passes_intermediate_year :
    sanitizeInteger (field (body req) "intermediate_year") "intermediate_year" true = inr i;
  passes_graduation_year :
    sanitizeInteger (field (body req) "graduation_year") "graduation_year" true = inr g;
  passes_years_experience :
    sanitizeInteger (field (body req) "years_experience") "years_experience" true = inr e;
  passes_sections : check_optional_sections (body req) = Continue tt;
  passes_decode :
    decode_additional_education (field (body req) "additional_education") = Continue es;
  passes_entries : check_entries es = Continue tt;
  passes_resume : file_path (files req) "resume" resume = Continue rp;
  passes_cover_letter : file_path (files req) "cover_letter" cover_letter = Continue cl;
  passes_resume_given : truthy rp = true;
  passes_expected_salary :
    float_or_null (field (body req) "expected_salary") = Continue xs;
  passes_last_salary : float_or_null (field (body req) "last_salary") = Continue ls
}.

(** The integer fields with the [isNullable] argument the handler passes,
    in the order of the calls, and the first exception the calls raise. *)
Definition integer_fields : list (string * bool) :=
  [ ("ssc_year", false); ("intermediate_year", true);
    ("graduation_year", true); ("years_experience", true) ].

Fixpoint first_error (b : gmap string JsVal) (l : list (string * bool)) : option JsError :=
  match l with
  | [] => None
  | (f, nullable) :: rest =>
      match sanitizeInteger (field b f) f nullable with
      | inl e => Some e
      | inr _ => first_error b rest
      end
  end.







(** The row the [INSERT] offers to the table for a [values] array. *)
Definition candidate (vals : list JsVal) : list (string * JsVal) :=
  combine insert_columns (map prepareValue vals).

(** Every [id] in the table was drawn from the sequence. *)
Definition fresh_ids (db : Db) : Prop :=
  Forall (fun r => row_id r < next_id db) (rows db).

(** No two rows have the same [email]. *)
Definition unique_emails (db : Db) : Prop :=
  NoDup (map (fun r => column r "email") (rows db)).

(** Two bodies agree except on the fields [ks]. *)
Definition agree_except (ks : list string) (b b' : gmap string JsVal) : Prop :=
  forall f, existsb (String.eqb f) ks = false -> field b f = field b' f.

Definition disjointb (l ks : list string) : bool :=
  forallb (fun f => negb (existsb (String.eqb f) ks)) l.


(** A row with the columns the handlers below read. *)
Definition sample_row (id : Z) (email : string) : Row :=
  {| row_id := id;
     row_cols := [ ("email", JStr email);
                   ("resume_path", JStr ("/srv/Uploads/resume-" ++ pretty id ++ ".pdf"));
                   ("cover_letter_path", JNull); ("status", JStr "Pending") ] |}.

(** A table with two applications, a disk on which the resume of the
    first cannot be unlinked, and the upload directory. *)
Definition sample_uploads : string := "/srv/Uploads".

Definition two_rows : Db :=
  {| rows := [ sample_row 1 "asha@example.org"; sample_row 2 "ben@example.org" ];
     next_id := 3 |}.

Definition sample_disk : Fs :=
  {| readdir_error := None;
     entries :=
       [ ("/srv/Uploads/resume-1.pdf",
          Some "EACCES: permission denied, unlink '/srv/Uploads/resume-1.pdf'");
         ("/srv/Uploads/resume-2.pdf", None) ] |}.

(** A catalog that lacks the columns [dob] and [status], on a server that
    refuses the [DEFAULT 1970-01-01] of a [DATE] column. *)
Definition sample_catalog : list string :=
  List.filter (fun n => negb (String.eqb n "dob") && negb (String.eqb n "status"))
              (map name expectedColumns).

Definition sample_exec (q : Statement) (c : list string) : string + list string :=
  match q with
  | AddColumn n _ _ =>
      if String.eqb n "dob"
      then inl "column dob is of type date but default expression is of type integer"
      else inr (c ++ [ n ])%list
  | _ => inr c
  end.

Definition sample_existing (c : list string) : string + list string := inr c.

(** The console line of a column whose statements all went through. *)
Definition added_line (m : Column) : string :=
  "Added column " ++ name m ++ " to applications table".

Definition rejected (r : Response) : Prop :=
  status r = 400%nat \/ status r = 500%nat.

(** ** Middleware: origins, uploads and the error handler *)

Definition allowedOrigins : list string :=
  [ "http://localhost:3000"; "http://localhost:3001" ].

(** The [origin] option of [cors]: [callback(null, true)] is [inr true],
    [callback(new Error(...))] is [inl].  [origin] is the request header,
    [undefined] when there is none. *)
Definition cors_origin (origin : JsVal) : JsError + bool :=
  if negb (truthy origin) then inr true
  else if match origin with
          | JStr s => existsb (String.eqb s) allowedOrigins
          | _ => false
          end
       then inr true
       else inl (Error "Not allowed by CORS").

(** What multer knows of an incoming file when it asks [fileFilter] and
    [filename]. *)
Record Upload : Type := {
  fieldname : string;
  originalname : string;
  mimetype : string
}.

(** [fileFilter]: [cb(null, true)] or [cb(new Error(...), false)]. *)
Definition fileFilter (file : Upload) : JsError + bool :=
  if String.eqb (mimetype file) "application/pdf" then inr true
  else inl (Error "Only PDF files are allowed").

(** The [filename] option of the disk storage.  [now] is [Date.now()],
    [rnd] is [Math.round(Math.random() * 1E9)] and [ext] is
    [path.extname(file.originalname)]. *)
Definition filename (file : Upload) (now rnd : Z) (ext : string) : string :=
  fieldname file ++ "-" ++ (pretty now ++ "-" ++ pretty rnd) ++ ext.

(** An error handed to [next]: a [multer.MulterError] or any other. *)
Inductive Failure : Type :=
| MulterError (msg : string)
| OtherError (msg : string).

(** The error-handling middleware of lines 653-664. *)
Definition error_handler (err : Failure) : Response :=
  match err with
  | MulterError msg => bad_request ("File upload error: " ++ msg)
  | OtherError msg =>
      if String.eqb msg "Not allowed by CORS"
      then {| status := 403; payload := json_false_error "CORS policy violation" |}
      else server_error "Something went wrong!"
  end.

(** A request on its way to a handler: the error of the [origin] callback
    and the error of [fileFilter] both reach the error handler through
    [next(err)]; [None] lets the request through. *)
Definition origin_gate (origin : JsVal) : option Response :=
  match cors_origin origin with
  | inl e => Some (error_handler (OtherError (message e)))
  | inr _ => None
  end.

Definition upload_gate (file : Upload) : option Response :=
  match fileFilter file with
  | inl e => Some (error_handler (OtherError (message e)))
  | inr _ => None
  end.

(** ** Listing and downloading *)

(** The columns of the [SELECT] of the list handler. *)
Definition summary_columns : list string :=
  [ "full_name"; "email"; "job_role"; "submission_date";
    "resume_path"; "cover_letter_path"; "status" ].

Definition summary (r : Row) : JsVal :=
  JObj (("id", JNum (pretty (row_id r)))
        :: map (fun c => (c, column r c)) summary_columns).

Section Listing.
(** [later a b] tells whether the timestamp [a] is at or after [b]: the
    order of the [TIMESTAMP] column, which the database owns. *)
Variable later : JsVal -> JsVal -> bool.

(** [ORDER BY submission_date DESC], as an insertion sort: among rows of
    equal date the database may answer in any order, this is one. *)
Fixpoint insert_desc (r : Row) (l : list Row) : list Row :=
  match l with
  | [] => [ r ]
  | x :: xs =>
      if later (column r "submission_date") (column x "submission_date")
      then r :: l
      else x :: insert_desc r xs
  end.

Definition order_by_date_desc (l : list Row) : list Row :=
  fold_right insert_desc [] l.

(** [GET /api/applications] *)
Definition list_applications (db : Db) : Response :=
  ok [("applications", JArr (map summary (order_by_date_desc (rows db))))].

End Listing.

(** What the download handler sends: a JSON answer or a file. *)
Inductive Sent : Type :=
| SendJson (r : Response)
| SendFile (path : string).

Definition file_not_found : Response :=
  {| status := 404; payload := json_false_error "File not found" |}.

Section Download.
Context `{Postgres}.

(** [GET /api/download/:type/:id].  [res.download] sends the file when the
    disk has it and otherwise gives its callback an error.  A [VARCHAR]
    column holds a text or [NULL]; for any other value [res.download]
    throws into the handler's [catch]. *)
Definition download (db : Db) (fs : Fs) (type id : string) : Sent :=
  if negb (existsb (String.eqb type) [ "resume"; "cover_letter" ])
  then SendJson (bad_request "Invalid file type")
  else
    match int4_in id with
    | None => SendJson (server_error (invalid_integer id))
    | Some n =>
        match select_by_id db n with
        | [] => SendJson file_not_found
        | r :: _ =>
            let filePath := column r (type ++ "_path") in
            if negb (truthy filePath) then SendJson file_not_found
            else
              match filePath with
              | JStr path =>
                  if existsSync fs path then SendFile path
                  else SendJson (server_error "Error downloading file")
              | _ => SendJson (server_error "path must be a string to res.sendFile")
              end
        end
    end.

End Download.

(** ** States the handlers can reach *)

Section Reach.
Context `{JsRuntime} `{Postgres}.

(** One request that may change the table. *)
Inductive Step : Db -> Db -> Prop :=
| step_submit (db : Db) (req : Request) (now : string) :
    Step db (fst (submit db req now))
| step_update_status (db : Db) (id : string) (b : gmap string JsVal) :
    Step db (fst (update_status db id b))
| step_delete (db : Db) (fs : Fs) (id : string) :
    Step db (fst (fst (fst (delete_application db fs id))))
| step_clear (uploadDir : string) (db : Db) (fs : Fs) :
    Step db (fst (fst (fst (clear_applications uploadDir db fs)))).

(** The tables that requests lead to from the table as created. *)
Inductive Reachable : Db -> Prop :=
| reach_created : Reachable empty_db
| reach_step (db db' : Db) : Reachable db -> Step db db' -> Reachable db'.

End Reach.

(** No two rows have the same [id]. *)
Definition unique_ids (db : Db) : Prop :=
  NoDup (map row_id (rows db)).


(** The values the required-field filter takes for missing. *)
Definition counts_as_missing (v : JsVal) : Prop :=
  v = JUndefined \/ v = JNull \/ v = JBool false \/ v = JNum "0" \/ v = JNum "NaN".

(** Whether a path names an entry directly inside a directory. *)
Definition directly_inside (dir path : string) : bool :=
  match strip_prefix (dir ++ "/") path with
  | Some name => negb (has_slash name || String.eqb name EmptyString)
  | None => false
  end.

(** A file that exists and that [unlink] removes. *)
Definition deletable (fs : Fs) (path : string) : bool :=
  match assoc path (entries fs) with
  | Some None => true
  | _ => false
  end.

(** An order of timestamps written as ISO texts, and a table with dates. *)
Definition sample_later (a b : JsVal) : bool :=
  match a, b with
  | JStr x, JStr y => String.leb y x
  | _, _ => true
  end.

Definition dated_row (id : Z) (date : string) : Row :=
  {| row_id := id;
     row_cols := [ ("email", JStr ("a" ++ pretty id ++ "@example.org"));
                   ("submission_date", JStr date) ] |}.

Definition dated_rows : Db :=
  {| rows := [ dated_row 1 "2024-01-05"; dated_row 2 "2024-03-01";
               dated_row 3 "2024-02-11" ];
     next_id := 4 |}.

(** [a] is at or after [b] in the order of the listing. *)
Definition not_before (later : JsVal -> JsVal -> bool) (a b : Row) : Prop :=
  later (column a "submission_date") (column b "submission_date") = true.

(** The column a statement of the synchroniser is about. *)
Definition statement_column (q : Statement) : option string :=
  match q with
  | CreateTable => None
  | AddColumn n _ _ | Backfill n _ | SetNotNull n => Some n
  end.

(** A text made of one-byte white space only. *)
Fixpoint only_white (s : string) : bool :=
  match s with
  | EmptyString => true
  | String c s' => is_white1 c && only_white s'
  end.

(** [l1] is [l2] with some elements left out, in the same order. *)
Inductive Sublist {A : Type} : list A -> list A -> Prop :=
| sublist_nil : Sublist [] []
| sublist_keep (x : A) (l1 l2 : list A) : Sublist l1 l2 -> Sublist (x :: l1) (x :: l2)
| sublist_drop (x : A) (l1 l2 : list A) : Sublist l1 l2 -> Sublist l1 (x :: l2).

(** * Properties *)

Example parse_plain : read_integer "2015" = Some 2015.
Proof. reflexivity. Qed.

Example parse_prefix : read_integer "  -12abc" = Some (-12).
Proof. reflexivity. Qed.

Example parse_nan : read_integer "abc" = None.
Proof. reflexivity. Qed.

(** ** [parseInt] reads decimal numerals *)

Lemma digit_char (x : N) :
  (x < 10)%N ->
  is_digit (pretty_N_char x) = true /\ digit_value (pretty_N_char x) = Z.of_N x.
Proof.
  intros Hx.
  assert (x = 0 \/ x = 1 \/ x = 2 \/ x = 3 \/ x = 4 \/ x = 5 \/ x = 6 \/ x = 7
          \/ x = 8 \/ x = 9)%N as Hc by lia.
  destruct Hc as [->|[->|[->|[->|[->|[->|[->|[->|[->| ->]]]]]]]]]; split; reflexivity.
Qed.

Lemma skip_white_digit (c : ascii) (rest : string) :
  is_digit c = true ->
  skip_white (String c rest) = String c rest
  /\ (code c =? 45)%N = false /\ (code c =? 43)%N = false.
Proof.
  destruct c as [[] [] [] [] [] [] [] []]; try discriminate; intros _;
    (split; [|split; reflexivity]);
    destruct rest as [|c2 [|c3 r]]; reflexivity.
Qed.

Lemma read_pretty_go (x : N) : forall (s : string) (acc : Z),
  exists k, 0 <= k
            /\ read_digits (pretty_N_go x s) acc
               = read_digits s (acc * 10 ^ k + Z.of_N x).
Proof.
  induction (N.lt_wf_0 x) as [x _ IH]. intros s acc.
  destruct (N.eq_dec x 0%N) as [->|Hx].
  - exists 0. split; [lia|]. rewrite pretty_N_go_0. f_equal. lia.
  - rewrite pretty_N_go_step by lia.
    destruct (IH (x / 10)%N (N.div_lt x 10 ltac:(lia) ltac:(lia))
                 (String (pretty_N_char (x mod 10)) s) acc) as [k [Hk E]].
    exists (k + 1). split; [lia|]. rewrite E. simpl.
    destruct (digit_char (x mod 10)%N) as [D V]; [apply N.mod_lt; lia|].
    rewrite D, V. f_equal.
    rewrite Z.pow_add_r by lia.
    pose proof (N.div_mod x 10 ltac:(lia)) as Q.
    rewrite N2Z.inj_mod, N2Z.inj_div in *.
    assert (Z.of_N x = 10 * (Z.of_N x / 10) + Z.of_N x mod 10) as Q'.
    { apply Z.div_mod. lia. }
    change (Z.of_N 10) with 10. lia.
Qed.

Lemma pretty_go_head (x : N) : forall s : string,
  (0 < x)%N ->
  exists c rest, pretty_N_go x s = String c rest /\ is_digit c = true.
Proof.
  induction (N.lt_wf_0 x) as [x _ IH]. intros s Hx.
  rewrite pretty_N_go_step by exact Hx.
  destruct (N.eq_dec (x / 10)%N 0%N) as [E|E].
  - rewrite E, pretty_N_go_0. eexists _, _. split; [reflexivity|].
    apply digit_char. apply N.mod_lt. lia.
  - apply IH; [apply N.div_lt; lia | now apply N.neq_0_lt_0].
Qed.

Lemma read_integer_positive (p : positive) :
  read_integer (pretty (Npos p)) = Some (Zpos p)
  /\ exists c rest, pretty (Npos p) = String c rest /\ is_digit c = true.
Proof.
  unfold pretty, pretty_N. destruct (decide (N.pos p = 0%N)) as [E|_]; [discriminate|].
  destruct (pretty_go_head (N.pos p) EmptyString ltac:(lia)) as (c & rest & E & D).
  split; [|eauto].
  destruct (read_pretty_go (N.pos p) EmptyString 0) as [k [_ R]].
  rewrite E in R. unfold read_integer. rewrite E.
  destruct (skip_white_digit c rest D) as (-> & -> & ->).
  simpl starts_with_digit. rewrite D, R. simpl. f_equal.
Qed.

(** Up to 2^53 in size an integer is a double. *)
Lemma to_double_exact (z : Z) : Z.abs z <= 2 ^ 53 -> to_double z = Finite z.
Proof.
  intros B. destruct (Z.eq_dec (Z.abs z) (2 ^ 53)) as [E|N].
  - destruct (Z.abs_eq_or_opp z) as [A|A]; rewrite A in E.
    + subst z. reflexivity.
    + assert (z = - 2 ^ 53) as -> by lia. reflexivity.
  - unfold to_double.
    assert (L : Z.log2 (Z.abs z) - 52 <= 0).
    { destruct (Z.eq_dec (Z.abs z) 0) as [->|P]; [discriminate|].
      assert (Z.log2 (Z.abs z) < 53); [|lia].
      apply Z.log2_lt_pow2; lia. }
    apply Z.leb_le in L. now rewrite L.
Qed.

Example round_to_even_above :
  to_double (2 ^ 53 + 1) = Finite (2 ^ 53) /\ to_double (2 ^ 53 + 3) = Finite (2 ^ 53 + 4).
Proof. split; reflexivity. Qed.

Example overflow_to_infinity :
  to_double (2 ^ 1024 - 2 ^ 970 - 1) = Finite (2 ^ 1024 - 2 ^ 971)
  /\ to_double (2 ^ 1024 - 2 ^ 970) = Infinite false
  /\ to_double (- 2 ^ 1024) = Infinite true.
Proof. repeat split; vm_compute; reflexivity. Qed.

Example rendering_of_large_numbers :
  Number_toString (to_double 9007199254740993) = "9007199254740992"
  /\ Number_toString (to_double (2 ^ 64)) = "18446744073709552000"
  /\ Number_toString (to_double (10 ^ 21)) = "1e+21"
  /\ Number_toString (to_double 123456789012345678901234567890)
     = "1.2345678901234568e+29".
Proof. repeat split; vm_compute; reflexivity. Qed.

(** The integer read in the decimal numeral of an integer is that
    integer. *)
Lemma read_integer_pretty (z : Z) : read_integer (pretty z) = Some z.
Proof.
  destruct z as [|p|p].
  - reflexivity.
  - apply (read_integer_positive p).
  - change (pretty (Z.neg p)) with (String "-" (pretty (Npos p))).
    destruct (read_integer_positive p) as [P (c & rest & E & D)].
    rewrite E in *. unfold read_integer in *.
    destruct (skip_white_digit c rest D) as (S & S1 & S2).
    rewrite S, S1, S2 in P.
    replace (skip_white (String "-" (String c rest))) with (String "-" (String c rest)).
    + change (code "-" =? 45)%N with true. cbv iota beta.
      destruct (starts_with_digit (String c rest)); [|discriminate].
      assert (P' : read_digits (String c rest) 0 = Z.pos p) by congruence.
      now rewrite P'.
    + destruct c as [[] [] [] [] [] [] [] []]; try discriminate;
        destruct rest as [|c3 r]; reflexivity.
Qed.

Example sample_is_accepted :
  snd (@submit sample_runtime sample_postgres empty_db sample_request sample_now)
  = ok [("id", JNum "1"); ("message", JStr "Application submitted successfully")].
Proof. vm_compute. reflexivity. Qed.

(** ** Required fields *)

Lemma field_absent (b : gmap string JsVal) (f : string) :
  b !! f = None -> field b f = JUndefined.
Proof. intros E. unfold field. now rewrite E. Qed.

Lemma missing_iff (b : gmap string JsVal) (f : string) :
  In f (missingFields b) <-> In f requiredFields /\ is_missing b f = true.
Proof. unfold missingFields. rewrite filter_In. tauto. Qed.

Lemma check_required_respond (b : gmap string JsVal) (r : Response) :
  check_required b = Respond r -> r = missing_response (missingFields b).
Proof.
  unfold check_required.
  destruct (missingFields b); intros E; inversion E; reflexivity.
Qed.

Lemma check_required_continue (b : gmap string JsVal) :
  check_required b = Continue tt <-> missingFields b = [].
Proof.
  unfold check_required.
  destruct (missingFields b); split; intros E; try reflexivity; discriminate.
Qed.




(** ** The stages of validation *)

Lemma check_entries_respond `{JsRuntime} (es : list JsVal) (r : Response) :
  check_entries es = Respond r ->
  r = bad_request "Incomplete additional education data".
Proof.
  induction es as [|e es IH]; simpl; [discriminate|].
  destruct (entry_incomplete e) as [err|[|]]; try discriminate; [|exact IH].
  intros E. now inversion E.
Qed.

Lemma check_optional_sections_cases (b : gmap string JsVal) :
  (check_optional_sections b = Continue tt
   /\ intermediateValid b = true /\ graduationValid b = true /\ experienceValid b = true)
  \/ (check_optional_sections b = Respond (bad_request "Incomplete optional section data")
      /\ (intermediateValid b = false \/ graduationValid b = false
          \/ experienceValid b = false)).
Proof.
  unfold check_optional_sections.
  destruct (intermediateValid b), (graduationValid b), (experienceValid b); simpl; auto 6.
Qed.

Lemma decode_respond `{JsRuntime} (v : JsVal) (r : Response) :
  decode_additional_education v = Respond r ->
  r = bad_request "Invalid additional_education format".
Proof.
  unfold decode_additional_education.
  destruct (truthy v); [|discriminate].
  destruct (match v with JStr s => JSON_parse s | _ => Some v end) as [[]|];
    intros E; inversion E; reflexivity.
Qed.

Lemma bind_continue_inv {A B : Type} (m : Outcome A) (k : A -> Outcome B) (y : B) :
  m ≫= k = Continue y -> exists a, m = Continue a /\ k a = Continue y.
Proof.
  destruct m as [a|r|e]; simpl; intros E.
  - exists a. split; [reflexivity | exact E].
  - discriminate.
  - discriminate.
Qed.

Lemma bind_respond_inv {A B : Type} (m : Outcome A) (k : A -> Outcome B) (r : Response) :
  m ≫= k = Respond r -> m = Respond r \/ exists a, m = Continue a /\ k a = Respond r.
Proof.
  destruct m as [a|r'|e]; simpl; intros E.
  - right. exists a. split; [reflexivity | exact E].
  - left. inversion E. reflexivity.
  - discriminate.
Qed.

Lemma lift_not_respond {A : Type} (x : JsError + A) (r : Response) :
  lift x <> Respond r.
Proof. now destruct x. Qed.

Lemma float_or_null_not_respond `{JsRuntime} (v : JsVal) (r : Response) :
  float_or_null v <> Respond r.
Proof.
  unfold float_or_null. destruct (truthy v); [|discriminate].
  now destruct (to_string v).
Qed.

Lemma file_path_not_respond `{JsRuntime} (fs : option Files) (n : string)
      (get : Files -> option string) (r : Response) :
  file_path fs n get <> Respond r.
Proof. now destruct fs. Qed.

Ltac stage E :=
  apply bind_respond_inv in E; destruct E as [E | [? [_ E]]].

(** A response sent by the validation is always a 400. *)
Lemma validate_respond_status `{JsRuntime} (req : Request) (now : string) (r : Response) :
  validate req now = Respond r -> status r = 400%nat.
Proof.
  unfold validate. intros E.
  stage E.
  { apply check_required_respond in E. now subst. }
  stage E; [now apply lift_not_respond in E|].
  stage E; [now apply lift_not_respond in E|].
  stage E; [now apply lift_not_respond in E|].
  stage E; [now apply lift_not_respond in E|].
  stage E.
  { destruct (check_optional_sections_cases (body req)) as [[C _]|[C _]];
      rewrite C in E; inversion E; reflexivity. }
  stage E; [apply decode_respond in E; now subst|].
  stage E; [apply check_entries_respond in E; now subst|].
  stage E; [now apply file_path_not_respond in E|].
  stage E; [now apply file_path_not_respond in E|].
  stage E.
  { destruct (negb _); inversion E; reflexivity. }
  stage E; [now apply float_or_null_not_respond in E|].
  stage E; [now apply float_or_null_not_respond in E|].
  discriminate.
Qed.

(** Unless the validation goes through, the handler answers 400 or 500
    and leaves the table alone. *)
Lemma submit_rejected `{JsRuntime} `{Postgres} (db : Db) (req : Request) (now : string) :
  (forall vals, validate req now <> Continue vals) ->
  exists r, submit db req now = (db, r) /\ rejected r.
Proof.
  intros Hn. unfold submit.
  destruct (validate req now) as [vals|r|e] eqn:V.
  - now destruct (Hn vals).
  - exists r. split; [reflexivity|]. left. eapply validate_respond_status; eauto.
  - eexists. split; [reflexivity|]. now right.
Qed.

Lemma lift_continue_inv {A : Type} (x : JsError + A) (a : A) :
  lift x = Continue a -> x = inr a.
Proof. destruct x; simpl; intros E; inversion E; reflexivity. Qed.

Ltac next_stage E a Ha :=
  apply bind_continue_inv in E; destruct E as [a [Ha E]].

(** The validation goes through exactly when every stage does, and then
    hands over the [values] array. *)
Lemma validate_continue `{JsRuntime} (req : Request) (now : string) (vals : list JsVal) :
  validate req now = Continue vals <->
  exists y i g e es rp cl xs ls,
    Passes req y i g e es rp cl xs ls
    /\ vals = values (body req) y i g e es rp cl xs ls now.
Proof.
  split.
  - unfold validate. intros E.
    next_stage E u0 H0. next_stage E y Hy. next_stage E i Hi.
    next_stage E g Hg. next_stage E e He. next_stage E u1 H1.
    next_stage E es Hes. next_stage E u2 H2. next_stage E rp Hrp.
    next_stage E cl Hcl. next_stage E u3 H3. next_stage E xs Hxs.
    next_stage E ls Hls. inversion E; subst vals.
    exists y, i, g, e, es, rp, cl, xs, ls. split; [|reflexivity].
    destruct u1, u2.
    constructor; auto using lift_continue_inv.
    + destruct u0. now apply check_required_continue.
    + destruct (truthy rp); [reflexivity | discriminate].
  - intros (y & i & g & e & es & rp & cl & xs & ls & [P0 Py Pi Pg Pe P1 Pes P2 Prp Pcl P3 Pxs Pls] & ->).
    apply check_required_continue in P0.
    unfold validate.
    rewrite P0, Py, Pi, Pg, Pe. simpl. rewrite P1. simpl.
    rewrite Pes. simpl. rewrite P2. simpl. rewrite Prp. simpl.
    rewrite Pcl. simpl. rewrite P3. simpl. rewrite Pxs. simpl.
    rewrite Pls. reflexivity.
Qed.

(** ** Optional sections *)

Lemma filled_truthy (v : JsVal) : filled v = truthy v.
Proof.
  unfold filled. destruct v as [| |b|r|s|l|ps|ps]; simpl; try reflexivity;
    try apply andb_true_r.
  now destruct (String.eqb s EmptyString).
Qed.

(** On a text field the test asks for a non-empty text; an absent field
    fails it. *)
Lemma filled_text (s : string) : filled (JStr s) = true <-> s <> EmptyString.
Proof.
  rewrite filled_truthy. simpl. rewrite negb_true_iff.
  split.
  - intros E ->. discriminate.
  - intros N. destruct s; [congruence | reflexivity].
Qed.

Lemma filled_undefined : filled JUndefined = false.
Proof. reflexivity. Qed.

Lemma validateEducationSection_false (b : gmap string JsVal) (g : list string) :
  validateEducationSection b g = false <-> partially_filled b g.
Proof.
  unfold validateEducationSection, partially_filled.
  destruct (existsb _ g) eqn:Ex.
  - apply existsb_exists in Ex. split.
    + intros Fa. split; [exact Ex|].
      destruct (forallb_forall (fun f => filled (field b f)) g) as [_ Hall].
      destruct (existsb (fun f => negb (filled (field b f))) g) eqn:Ex2.
      * apply existsb_exists in Ex2. destruct Ex2 as [f [Hin Hf]].
        exists f. split; [exact Hin|]. now apply negb_true_iff.
      * rewrite Hall in Fa; [discriminate|].
        intros f Hin. destruct (filled (field b f)) eqn:Ff; [reflexivity|].
        assert (existsb (fun f => negb (filled (field b f))) g = true) as Hc.
        { apply existsb_exists. exists f. split; [exact Hin|]. now rewrite Ff. }
        congruence.
    + intros [_ [f [Hin Hf]]].
      destruct (forallb _ g) eqn:Fa; [|reflexivity].
      rewrite forallb_forall in Fa. specialize (Fa f Hin). congruence.
  - split; [discriminate|].
    intros [[f [Hin Hf]] _].
    assert (existsb (fun f => filled (field b f)) g = true) as Hc.
    { apply existsb_exists. eauto. }
    congruence.
Qed.

Lemma validateEducationSection_whole (b : gmap string JsVal) (g : list string) :
  entirely_absent b g \/ entirely_present b g -> validateEducationSection b g = true.
Proof.
  intros Hw. destruct (validateEducationSection b g) eqn:V; [reflexivity|].
  apply validateEducationSection_false in V.
  destruct V as [[f1 [In1 F1]] [f2 [In2 F2]]].
  destruct Hw as [Ha|Hp].
  - rewrite (Ha f1 In1) in F1. discriminate.
  - rewrite (Hp f2 In2) in F2. discriminate.
Qed.

(** Once the required fields and the integers are through, the answer of
    the section check is the answer of the handler. *)
Lemma validate_at_sections `{JsRuntime} (req : Request) (now : string) (r : Response) :
  missingFields (body req) = [] ->
  passes_sanitation (body req) = true ->
  check_optional_sections (body req) = Respond r ->
  validate req now = Respond r.
Proof.
  intros M S C. apply check_required_continue in M.
  unfold validate. rewrite M. simpl.
  revert S. unfold passes_sanitation.
  destruct (sanitizeInteger _ "ssc_year" _); [discriminate|].
  destruct (sanitizeInteger _ "intermediate_year" _); [discriminate|].
  destruct (sanitizeInteger _ "graduation_year" _); [discriminate|].
  destruct (sanitizeInteger _ "years_experience" _); [discriminate|].
  intros _. simpl. rewrite C. reflexivity.
Qed.

Lemma sections_must_pass `{JsRuntime} (req : Request) (now : string) (r : Response) :
  check_optional_sections (body req) = Respond r ->
  forall vals, validate req now <> Continue vals.
Proof.
  intros C vals V. apply validate_continue in V.
  destruct V as (y & i & g & e & es & rp & cl & xs & ls & P & _).
  rewrite (passes_sections _ _ _ _ _ _ _ _ _ _ P) in C. discriminate.
Qed.

(** C2. A partially filled intermediate or graduation group makes the
    section check answer 400 "Incomplete optional section data"; that is
    the answer of the submit handler once the required fields and the
    integers, which are checked before, are through, and in no case is the
    submission accepted.  A group that is entirely absent or entirely
    present passes the check of its section. *)
Theorem incomplete_education_group_rejected `{JsRuntime} `{Postgres}
        (db : Db) (req : Request) (now : string) :
  (partially_filled (body req) intermediate_group
   \/ partially_filled (body req) graduation_group ->
   check_optional_sections (body req)
   = Respond (bad_request "Incomplete optional section data")
   /\ (missingFields (body req) = [] -> passes_sanitation (body req) = true ->
       submit db req now = (db, bad_request "Incomplete optional section data"))
   /\ (exists r, submit db req now = (db, r) /\ rejected r))
  /\ (forall g, g = intermediate_group \/ g = graduation_group ->
                entirely_absent (body req) g \/ entirely_present (body req) g ->
                validateEducationSection (body req) g = true).
Proof.
  split.
  - intros Hp.
    assert (C : check_optional_sections (body req)
                = Respond (bad_request "Incomplete optional section data")).
    { destruct (check_optional_sections_cases (body req)) as [[_ (I & G & _)]|[C _]];
        [|exact C].
      unfold intermediateValid, graduationValid in *.
      destruct Hp as [Hp|Hp]; apply validateEducationSection_false in Hp; congruence. }
    split; [exact C|]. split.
    + intros M S. unfold submit.
      now rewrite (validate_at_sections req now _ M S C).
    + apply submit_rejected. eapply sections_must_pass; eauto.
  - intros g _ Hw. now apply validateEducationSection_whole.
Qed.

Lemma incomplete_education_group_rejected_witness :
  let alone := with_field "intermediate_board" (JStr "State Board") sample_request in
  let whole :=
    with_field "intermediate_percentage" (JStr "81")
      (with_field "intermediate_year" (JStr "2017") alone) in
  @submit sample_runtime sample_postgres empty_db alone sample_now
  = (empty_db, bad_request "Incomplete optional section data")
  /\ validateEducationSection (body whole) intermediate_group = true.
Proof.
  intros alone whole. split.
  - apply (@incomplete_education_group_rejected sample_runtime sample_postgres
             empty_db alone sample_now); [|reflexivity|reflexivity].
    left. split.
    + exists "intermediate_board". split; [simpl; tauto | reflexivity].
    + exists "intermediate_year". split; [simpl; tauto | reflexivity].
  - apply (@incomplete_education_group_rejected sample_runtime sample_postgres
             empty_db whole sample_now); [left; reflexivity|].
    right. intros f Hin. simpl in Hin.
    destruct Hin as [<-|[<-|[<-|[]]]]; reflexivity.
Defined.





Example experienced_whole_is_accepted :
  let whole :=
    fold_right (fun kv => with_field (fst kv) (JStr (snd kv))) sample_request
      [ ("experience_status", "Experienced"); ("years_experience", "0");
        ("company_name", "Acme"); ("designation", "Engineer");
        ("work_location", "Pune"); ("start_date", "2023-01");
        ("end_date", "2025-12") ] in
  status (snd (@submit sample_runtime sample_postgres empty_db whole sample_now)) = 200%nat.
Proof. vm_compute. reflexivity. Qed.

(** ** Integer sanitation *)

Lemma first_error_throws `{JsRuntime} (req : Request) (now : string) (e : JsError) :
  missingFields (body req) = [] ->
  first_error (body req) integer_fields = Some e ->
  validate req now = Throw e.
Proof.
  intros M. apply check_required_continue in M.
  unfold validate. rewrite M. simpl.
  destruct (sanitizeInteger _ "ssc_year" _); simpl; [congruence|].
  destruct (sanitizeInteger _ "intermediate_year" _); simpl; [congruence|].
  destruct (sanitizeInteger _ "graduation_year" _); simpl; [congruence|].
  destruct (sanitizeInteger _ "years_experience" _); simpl; [congruence|].
  discriminate.
Qed.

(** C4. [sanitizeInteger] gives [null] for an empty or absent value of a
    nullable field and throws for one of a non-nullable field; any other
    value is read with [parseInt(_, 10)] and either gives the number read,
    which is the double nearest to the integer written, or throws
    "Invalid <field>: ..." with the field's name when no integer is
    written; the decimal numeral of an integer gives the double nearest to
    it, which is the integer itself up to 2^53 in size.  The handler calls
    it on [ssc_year] as non-nullable and on [intermediate_year],
    [graduation_year] and [years_experience] as nullable, and answers 500
    with the message of the first exception. *)
Theorem integer_sanitation `{JsRuntime} `{Postgres}
        (value : JsVal) (fieldName : string) :
  (is_blank value = true ->
   sanitizeInteger value fieldName true = inr None
   /\ sanitizeInteger value fieldName false
      = inl (Error ("Invalid " ++ fieldName
                    ++ ": empty value not allowed for non-nullable field")))
  /\ (forall isNullable s, is_blank value = false -> to_string value = Some s ->
      match read_integer s with
      | Some n => sanitizeInteger value fieldName isNullable = inr (Some (to_double n))
      | None =>
          sanitizeInteger value fieldName isNullable
          = inl (Error ("Invalid " ++ fieldName ++ ": " ++ dquote ++ s ++ dquote
                        ++ " is not a valid integer"))
      end)
  /\ (forall isNullable z,
         sanitizeInteger (JStr (pretty z)) fieldName isNullable
         = inr (Some (to_double z))
         /\ (Z.abs z <= 2 ^ 53 -> to_double z = Finite z))
  /\ (forall db req now e,
         missingFields (body req) = [] ->
         first_error (body req) integer_fields = Some e ->
         submit db req now = (db, server_error (message e))).
Proof.
  split; [|split; [|split]].
  - intros B. unfold sanitizeInteger. rewrite B. split; reflexivity.
  - intros n s B T. unfold sanitizeInteger, parseInt10. rewrite B, T.
    destruct (read_integer s); reflexivity.
  - intros n z. split; [|apply to_double_exact].
    unfold sanitizeInteger, parseInt10. simpl.
    pose proof (read_integer_pretty z) as P.
    destruct (pretty z) eqn:E; [discriminate|].
    simpl. now rewrite P.
  - intros db req now e M F. unfold submit.
    now rewrite (first_error_throws req now e M F).
Qed.

Lemma integer_sanitation_witness :
  sanitizeInteger JUndefined "intermediate_year" true = inr None
  /\ sanitizeInteger (JStr EmptyString) "ssc_year" false
     = inl (Error "Invalid ssc_year: empty value not allowed for non-nullable field")
  /\ sanitizeInteger (JStr "2015") "ssc_year" false = inr (Some (Finite 2015))
  /\ sanitizeInteger (JStr "9007199254740993") "ssc_year" false
     = inr (Some (Finite 9007199254740992))
  /\ @submit sample_runtime sample_postgres empty_db
       (with_field "graduation_year" (JStr "soon") sample_request) sample_now
     = (empty_db,
        server_error ("Invalid graduation_year: " ++ dquote ++ "soon" ++ dquote
                      ++ " is not a valid integer")).
Proof.
  split; [|split; [|split; [|split]]].
  - apply (@integer_sanitation sample_runtime sample_postgres JUndefined "intermediate_year").
    reflexivity.
  - apply (@integer_sanitation sample_runtime sample_postgres (JStr EmptyString) "ssc_year").
    reflexivity.
  - apply (proj1 (proj2 (@integer_sanitation sample_runtime sample_postgres
                           (JStr "2015") "ssc_year")) false "2015");
      reflexivity.
  - apply (proj1 (proj2 (@integer_sanitation sample_runtime sample_postgres
                           (JStr "9007199254740993") "ssc_year")) false
             "9007199254740993");
      reflexivity.
  - apply (proj2 (proj2 (proj2 (@integer_sanitation sample_runtime sample_postgres
                                  JNull "x"))) empty_db
             (with_field "graduation_year" (JStr "soon") sample_request) sample_now
             (Error ("Invalid graduation_year: " ++ dquote ++ "soon" ++ dquote
                     ++ " is not a valid integer")));
      reflexivity.
Defined.

(** ** Values, property lists and rows *)

Lemma JsVal_eqb_refl : forall v, JsVal_eqb v v = true.
Proof.
  fix IH 1. intros [| |b|r|s|l|ps|ps]; simpl; try reflexivity.
  - now destruct b.
  - apply String.eqb_refl.
  - apply String.eqb_refl.
  - induction l as [|x xs IHl]; [reflexivity|].
    now rewrite IH, IHl.
  - induction ps as [|[k x] xs IHl]; [reflexivity|].
    now rewrite String.eqb_refl, IH, IHl.
  - induction ps as [|[k x] xs IHl]; [reflexivity|].
    now rewrite String.eqb_refl, IH, IHl.
Qed.

Lemma JsVal_eqb_eq : forall a b, JsVal_eqb a b = true -> a = b.
Proof.
  fix IH 1. intros [| |x|x|x|l|ps|ps] [| |y|y|y|l'|ps'|ps']; simpl; intros E;
    try reflexivity; try discriminate.
  - apply Bool.eqb_prop in E. now subst.
  - apply String.eqb_eq in E. now subst.
  - apply String.eqb_eq in E. now subst.
  - f_equal. revert l' E.
    induction l as [|a l IHl]; intros [|b l'] E; try reflexivity; try discriminate.
    apply andb_true_iff in E. destruct E as [E1 E2].
    f_equal; [now apply IH | now apply IHl].
  - f_equal. revert ps' E.
    induction ps as [|[k a] l IHl]; intros [|[k' b] l'] E;
      try reflexivity; try discriminate.
    apply andb_true_iff in E. destruct E as [E1 E2].
    apply andb_true_iff in E1. destruct E1 as [E0 E1].
    apply String.eqb_eq in E0. subst k'.
    f_equal; [f_equal; now apply IH | now apply IHl].
  - f_equal. revert ps' E.
    induction ps as [|[k a] l IHl]; intros [|[k' b] l'] E;
      try reflexivity; try discriminate.
    apply andb_true_iff in E. destruct E as [E1 E2].
    apply andb_true_iff in E1. destruct E1 as [E0 E1].
    apply String.eqb_eq in E0. subst k'.
    f_equal; [f_equal; now apply IH | now apply IHl].
Qed.

Lemma assoc_set_prop_eq (k : string) (v : JsVal) (l : list (string * JsVal)) :
  assoc k (set_prop k v l) = Some v.
Proof.
  induction l as [|[k' a] l IH]; simpl.
  - now rewrite String.eqb_refl.
  - destruct (String.eqb k k') eqn:E; simpl; rewrite E; [reflexivity | exact IH].
Qed.

Lemma assoc_set_prop_ne (k k' : string) (v : JsVal) (l : list (string * JsVal)) :
  k <> k' -> assoc k' (set_prop k v l) = assoc k' l.
Proof.
  intros N. induction l as [|[k0 a] l IH]; simpl.
  - destruct (String.eqb k' k) eqn:E; [|reflexivity].
    apply String.eqb_eq in E. congruence.
  - destruct (String.eqb k k0) eqn:E; simpl.
    + apply String.eqb_eq in E. subst k0.
      destruct (String.eqb k' k) eqn:E'; [|reflexivity].
      apply String.eqb_eq in E'. congruence.
    + now rewrite IH.
Qed.

Lemma email_taken_spec (db : Db) (email : JsVal) :
  email_taken db email = true <-> exists r, In r (rows db) /\ column r "email" = email.
Proof.
  unfold email_taken. rewrite existsb_exists. split.
  - intros [r [Hin E]]. exists r. split; [exact Hin | now apply JsVal_eqb_eq].
  - intros [r [Hin E]]. exists r. split; [exact Hin|]. rewrite E. apply JsVal_eqb_refl.
Qed.

Lemma select_by_id_fresh (db : Db) (n : Z) :
  fresh_ids db -> next_id db <= n -> select_by_id db n = [].
Proof.
  unfold fresh_ids, select_by_id. intros F Hn.
  induction (rows db) as [|r rs IH]; [reflexivity|].
  inversion F as [|r' rs' Hr Hrs]; subst. simpl.
  destruct (row_id r =? n) eqn:E; [apply Z.eqb_eq in E; lia | now apply IH].
Qed.

Lemma select_by_id_app (rs1 rs2 : list Row) (k : Z) (n : Z) :
  select_by_id {| rows := rs1 ++ rs2; next_id := k |} n
  = (select_by_id {| rows := rs1; next_id := k |} n
     ++ select_by_id {| rows := rs2; next_id := k |} n)%list.
Proof. unfold select_by_id. simpl. apply List.filter_app. Qed.

(** ** The insert *)

Ltac lookup_columns :=
  cbv [assoc candidate combine insert_columns values map set_prop
       String.eqb Ascii.eqb Bool.eqb default id not_null_columns List.find].

Lemma insert_application_failure `{Postgres} (db db' : Db) (vals : list JsVal) (e : DbError) :
  insert_application db vals = (db', inl e) -> rows db' = rows db.
Proof.
  unfold insert_application.
  destruct (input_error _); [intros E; inversion E; reflexivity|].
  destruct (store_jsonb _); [|intros E; inversion E; reflexivity].
  destruct (List.find _ _); [intros E; inversion E; reflexivity|].
  destruct (email_taken _ _); intros E; inversion E; reflexivity.
Qed.

Lemma insert_application_success `{Postgres} (db : Db) (vals : list JsVal)
      (cols' : list (string * JsVal)) :
  input_error (candidate vals) = None ->
  store_jsonb (candidate vals) = Some cols' ->
  List.find (fun c => is_null (default JNull (assoc c cols'))) not_null_columns = None ->
  email_taken db (default JNull (assoc "email" cols')) = false ->
  insert_application db vals
  = ({| rows := rows db ++ [ {| row_id := next_id db; row_cols := cols' |} ];
        next_id := next_id db + 1 |}, inr (next_id db)).
Proof.
  intros I S N E. unfold insert_application. fold (candidate vals).
  now rewrite I, S, N, E.
Qed.

Lemma insert_application_taken `{Postgres} (db : Db) (vals : list JsVal)
      (cols' : list (string * JsVal)) :
  input_error (candidate vals) = None ->
  store_jsonb (candidate vals) = Some cols' ->
  List.find (fun c => is_null (default JNull (assoc c cols'))) not_null_columns = None ->
  email_taken db (default JNull (assoc "email" cols')) = true ->
  insert_application db vals
  = ({| rows := rows db; next_id := next_id db + 1 |},
     inl (UniqueViolation "applications_email_key")).
Proof.
  intros I S N E. unfold insert_application. fold (candidate vals).
  now rewrite I, S, N, E.
Qed.

Lemma store_jsonb_email `{Postgres} (cols cols' : list (string * JsVal)) :
  store_jsonb cols = Some cols' -> assoc "email" cols' = assoc "email" cols.
Proof.
  unfold store_jsonb.
  destruct (assoc "additional_education" cols) as [[| | | |text| | |]|];
    try discriminate; try (intros E; inversion E; reflexivity).
  destruct (jsonb_in text); [|discriminate].
  intros E. inversion E. now apply assoc_set_prop_ne.
Qed.

(** An insert never succeeds on an email the table already has. *)
Lemma insert_application_never_twice `{Postgres} (db : Db) (vals : list JsVal) :
  email_taken db (default JNull (assoc "email" (candidate vals))) = true ->
  exists db' e, insert_application db vals = (db', inl e) /\ rows db' = rows db.
Proof.
  intros T. unfold insert_application. fold (candidate vals).
  destruct (input_error _); [eauto|].
  destruct (store_jsonb (candidate vals)) as [cols'|] eqn:S; [|eauto].
  destruct (List.find _ _); [eauto|].
  rewrite (store_jsonb_email _ _ S), T. eauto.
Qed.

Lemma not_missing_not_null (b : gmap string JsVal) (f : string) :
  missingFields b = [] -> In f requiredFields ->
  is_null (prepareValue (field b f)) = false.
Proof.
  intros M Hin.
  destruct (is_missing b f) eqn:Mf.
  - assert (In f (missingFields b)) as Hc by (apply missing_iff; auto).
    rewrite M in Hc. destruct Hc.
  - revert Mf. unfold is_missing.
    destruct (field b f) as [| |x|x|x|l|ps|ps]; simpl; try reflexivity; discriminate.
Qed.

Lemma sanitize_not_nullable (v : JsVal) (f : string) (y : option Double) :
  sanitizeInteger v f false = inr y -> exists n, y = Some n.
Proof.
  unfold sanitizeInteger.
  destruct (is_blank v); [discriminate|].
  destruct (to_string v) as [s|]; [|discriminate].
  destruct (parseInt10 s) as [n|]; [|discriminate].
  intros E. inversion E. eauto.
Qed.

Lemma truthy_not_null (v : JsVal) : truthy v = true -> is_null (prepareValue v) = false.
Proof. destruct v; simpl; try reflexivity; discriminate. Qed.

(** The row a validated submission offers has no [NULL] where the table
    forbids it. *)
Lemma validated_not_null `{JsRuntime} (req : Request) (now : string)
      (y i g e : option Double) (es : list JsVal) (rp cl xs ls v : JsVal) :
  Passes req y i g e es rp cl xs ls ->
  List.find
    (fun c => is_null (default JNull
                (assoc c (set_prop "additional_education" v
                            (candidate (values (body req) y i g e es rp cl xs ls now))))))
    not_null_columns = None.
Proof.
  intros P.
  pose proof (fun f => not_missing_not_null (body req) f
                          (passes_required _ _ _ _ _ _ _ _ _ _ P)) as R.
  destruct (sanitize_not_nullable _ _ _ (passes_ssc_year _ _ _ _ _ _ _ _ _ _ P)) as [n ->].
  pose proof (truthy_not_null _ (passes_resume_given _ _ _ _ _ _ _ _ _ _ P)) as Hrp.
  lookup_columns.
  rewrite !R by (cbv [requiredFields In]; tauto).
  rewrite Hrp. reflexivity.
Qed.

(** What the submit handler does with a submission that passes the
    validation, when the database takes the row. *)
Lemma submit_accepted `{JsRuntime} `{Postgres} (db : Db) (req : Request) (now : string)
      (y i g e : option Double) (es : list JsVal) (rp cl xs ls v : JsVal) :
  Passes req y i g e es rp cl xs ls ->
  input_error (candidate (values (body req) y i g e es rp cl xs ls now)) = None ->
  jsonb_in (JSON_stringify (JArr es)) = Some v ->
  email_taken db (prepareValue (field (body req) "email")) = false ->
  submit db req now
  = ({| rows := rows db
                ++ [ {| row_id := next_id db;
                        row_cols :=
                          set_prop "additional_education" v
                            (candidate (values (body req) y i g e es rp cl xs ls now)) |} ];
        next_id := next_id db + 1 |},
     ok [("id", JNum (pretty (next_id db)));
         ("message", JStr "Application submitted successfully")]).
Proof.
  intros P I J E. unfold submit.
  assert (V : validate req now = Continue (values (body req) y i g e es rp cl xs ls now)).
  { apply validate_continue. do 9 eexists. split; [exact P | reflexivity]. }
  rewrite V.
  erewrite insert_application_success; [reflexivity | exact I | | |].
  - unfold store_jsonb.
    replace (assoc "additional_education"
               (candidate (values (body req) y i g e es rp cl xs ls now)))
      with (Some (JStr (JSON_stringify (JArr es)))) by reflexivity.
    rewrite J. reflexivity.
  - now apply validated_not_null.
  - rewrite assoc_set_prop_ne by discriminate. exact E.
Qed.

(** ** Fields that a check does not read *)

Lemma field_delete_ne (k f : string) (b : gmap string JsVal) :
  k <> f -> field (delete k b) f = field b f.
Proof. intros N. unfold field. now rewrite lookup_delete_ne. Qed.


Lemma field_insert_eq (k : string) (v : JsVal) (b : gmap string JsVal) :
  field (<[k := v]> b) k = v.
Proof. unfold field. now rewrite lookup_insert_eq. Qed.

Lemma not_listed (f : string) (ks : list string) :
  existsb (String.eqb f) ks = false -> ~ In f ks.
Proof.
  intros E Hin.
  assert (existsb (String.eqb f) ks = true) as Hc.
  { apply existsb_exists. exists f. split; [exact Hin | apply String.eqb_refl]. }
  congruence.
Qed.

Lemma agree_delete (k : string) (b : gmap string JsVal) :
  agree_except [k] (delete k b) b.
Proof.
  intros f E. apply field_delete_ne. intros ->.
  apply not_listed in E. apply E. now left.
Qed.


Lemma disjointb_spec (l ks : list string) (f : string) :
  disjointb l ks = true -> In f l -> existsb (String.eqb f) ks = false.
Proof.
  unfold disjointb. rewrite forallb_forall. intros D Hin.
  apply negb_true_iff. now apply D.
Qed.

Lemma missingFields_agree (ks : list string) (b b' : gmap string JsVal) :
  agree_except ks b b' -> disjointb requiredFields ks = true ->
  missingFields b = missingFields b'.
Proof.
  intros A D. unfold missingFields. apply List.filter_ext_in.
  intros f Hin. unfold is_missing.
  now rewrite (A f (disjointb_spec _ _ _ D Hin)).
Qed.

Lemma validateEducationSection_agree (ks g : list string) (b b' : gmap string JsVal) :
  agree_except ks b b' -> disjointb g ks = true ->
  validateEducationSection b g = validateEducationSection b' g.
Proof.
  intros A D. unfold validateEducationSection.
  assert (Hm : map (fun f => filled (field b f)) g = map (fun f => filled (field b' f)) g).
  { apply map_ext_in. intros f Hin. now rewrite (A f (disjointb_spec _ _ _ D Hin)). }
  assert (Hex : forall (h : string -> bool) (l : list string),
             existsb h l = existsb (fun x => x) (map h l)).
  { intros h l. induction l as [|x l IH]; simpl; [reflexivity | now rewrite IH]. }
  assert (Hfa : forall (h : string -> bool) (l : list string),
             forallb h l = forallb (fun x => x) (map h l)).
  { intros h l. induction l as [|x l IH]; simpl; [reflexivity | now rewrite IH]. }
  now rewrite (Hex (fun f => filled (field b f))), (Hfa (fun f => filled (field b f))),
    (Hex (fun f => filled (field b' f))), (Hfa (fun f => filled (field b' f))), Hm.
Qed.

(** ** Entries of additional education *)



Lemma check_optional_sections_agree (ks : list string) (b b' : gmap string JsVal) :
  agree_except ks b b' ->
  disjointb (intermediate_group ++ graduation_group ++ experience_group
             ++ [ "experience_status" ]) ks = true ->
  check_optional_sections b = check_optional_sections b'.
Proof.
  intros A D.
  assert (Hf : forall f, In f (intermediate_group ++ graduation_group ++ experience_group
                               ++ [ "experience_status" ]) -> field b f = field b' f).
  { intros f Hin. apply A. eapply disjointb_spec; eauto. }
  assert (Di : disjointb intermediate_group ks = true).
  { apply forallb_forall. intros f Hin.
    apply negb_true_iff. eapply disjointb_spec; [exact D|]. simpl in *. tauto. }
  assert (Dg : disjointb graduation_group ks = true).
  { apply forallb_forall. intros f Hin.
    apply negb_true_iff. eapply disjointb_spec; [exact D|]. simpl in *. tauto. }
  unfold check_optional_sections, intermediateValid, graduationValid, experienceValid,
    is_experienced.
  rewrite (validateEducationSection_agree ks _ b b' A Di),
    (validateEducationSection_agree ks _ b b' A Dg).
  rewrite !Hf by (simpl; tauto). reflexivity.
Qed.

Lemma passes_with_additional_education `{JsRuntime} (req : Request)
      (y i g e : option Double) (es0 es : list JsVal) (rp cl xs ls : JsVal) :
  Passes (without_field "additional_education" req) y i g e es0 rp cl xs ls ->
  decode_additional_education (field (body req) "additional_education") = Continue es ->
  check_entries es = Continue tt ->
  Passes req y i g e es rp cl xs ls.
Proof.
  intros [P0 Py Pi Pg Pe P1 _ _ Prp Pcl P3 Pxs Pls] D C.
  pose proof (agree_delete "additional_education" (body req)) as A.
  simpl in *.
  constructor; try assumption.
  - now rewrite <- (missingFields_agree _ _ _ A eq_refl).
  - now rewrite <- (A "ssc_year" eq_refl).
  - now rewrite <- (A "intermediate_year" eq_refl).
  - now rewrite <- (A "graduation_year" eq_refl).
  - now rewrite <- (A "years_experience" eq_refl).
  - now rewrite <- (check_optional_sections_agree _ _ _ A eq_refl).
  - now rewrite <- (A "expected_salary" eq_refl).
  - now rewrite <- (A "last_salary" eq_refl).
Qed.

(** ** Fetching what was inserted *)

Lemma get_application_inserted `{JsRuntime} `{Postgres} (db : Db)
      (cols : list (string * JsVal)) :
  fresh_ids db ->
  int4_in (pretty (next_id db)) = Some (next_id db) ->
  let row := {| row_id := next_id db; row_cols := cols |} in
  get_application {| rows := rows db ++ [ row ]; next_id := next_id db + 1 |}
                  (pretty (next_id db))
  = ok [("application",
         JObj (set_prop "additional_education"
                 (normalize_additional_education (column row "additional_education"))
                 (row_object row)))].
Proof.
  intros F I row. unfold get_application. rewrite I.
  rewrite select_by_id_app.
  replace (select_by_id {| rows := rows db; next_id := next_id db + 1 |} (next_id db))
    with (select_by_id db (next_id db)) by reflexivity.
  rewrite (select_by_id_fresh db (next_id db) F) by lia.
  unfold select_by_id. simpl. rewrite Z.eqb_refl. reflexivity.
Qed.







(** ** Unique email *)

Lemma get_application_rows `{JsRuntime} `{Postgres} (db db' : Db) (id : string) :
  rows db' = rows db -> get_application db' id = get_application db id.
Proof. intros E. unfold get_application, select_by_id. now rewrite E. Qed.

Lemma select_by_id_rows (db db' : Db) (n : Z) :
  rows db' = rows db -> select_by_id db' n = select_by_id db n.
Proof. intros E. unfold select_by_id. now rewrite E. Qed.

Lemma insert_keeps_emails_unique `{Postgres} (db : Db) (vals : list JsVal) :
  unique_emails db -> unique_emails (fst (insert_application db vals)).
Proof.
  intros U. unfold insert_application.
  destruct (input_error _); [exact U|].
  destruct (store_jsonb _) as [cols'|]; [|exact U].
  destruct (List.find _ _); [exact U|].
  destruct (email_taken db _) eqn:T; [exact U|].
  unfold unique_emails in *. simpl. rewrite map_app. simpl.
  apply NoDup_app. split; [exact U|]. split; [|apply NoDup_singleton].
  intros x Hx Hin. apply list_elem_of_In in Hx, Hin.
  simpl in Hin. destruct Hin as [<-|[]].
  apply in_map_iff in Hx. destruct Hx as [r [Er Hr]].
  assert (email_taken db (default JNull (assoc "email" cols')) = true) as Hc.
  { apply email_taken_spec. exists r. split; [exact Hr | exact Er]. }
  congruence.
Qed.

Lemma fresh_ids_empty : fresh_ids empty_db.
Proof. constructor. Qed.

Lemma insert_keeps_ids_fresh `{Postgres} (db : Db) (vals : list JsVal) :
  fresh_ids db -> fresh_ids (fst (insert_application db vals)).
Proof.
  intros F.
  assert (F1 : Forall (fun r => row_id r < next_id db + 1) (rows db)).
  { eapply Forall_impl; [exact F|]. simpl. intros r Hr. lia. }
  unfold insert_application.
  destruct (input_error _); [exact F|].
  destruct (store_jsonb _) as [cols'|]; [|exact F].
  destruct (List.find _ _); [exact F1|].
  destruct (email_taken db _); [exact F1|].
  unfold fresh_ids. simpl. apply Forall_app. split; [exact F1|].
  constructor; [simpl; lia | constructor].
Qed.

Lemma update_status_keeps_emails_unique `{Postgres} (db : Db) (id : string)
      (b : gmap string JsVal) :
  unique_emails db -> unique_emails (fst (update_status db id b)).
Proof.
  intros U. unfold update_status.
  destruct (negb _); [exact U|].
  destruct (int4_in id) as [n|]; [|exact U].
  destruct (select_by_id db n); [exact U|].
  unfold unique_emails in *. simpl. rewrite map_map.
  erewrite map_ext; [exact U|].
  intros x. unfold set_status, column.
  destruct (row_id x =? n); [|reflexivity]. simpl.
  now rewrite assoc_set_prop_ne by discriminate.
Qed.

(** C6. Emails stay unique under inserts.  An insert whose email is
    already in the table fails and leaves every row as it was, so that
    each application is fetched by its id as before; the failure is the
    unique violation on [applications_email_key] when the row is otherwise
    acceptable, in which case the submit handler answers 500 with the
    duplicate-key message. *)
Theorem email_is_unique `{JsRuntime} `{Postgres} (db : Db) :
  (forall vals, unique_emails db -> unique_emails (fst (insert_application db vals)))
  /\ (forall vals,
         email_taken db (default JNull (assoc "email" (candidate vals))) = true ->
         exists db' e,
           insert_application db vals = (db', inl e)
           /\ rows db' = rows db
           /\ (forall id, get_application db' id = get_application db id)
           /\ (forall cols',
                  input_error (candidate vals) = None ->
                  store_jsonb (candidate vals) = Some cols' ->
                  List.find (fun c => is_null (default JNull (assoc c cols')))
                            not_null_columns = None ->
                  e = UniqueViolation "applications_email_key"))
  /\ (forall req now y i g e es rp cl xs ls v,
         Passes req y i g e es rp cl xs ls ->
         input_error (candidate (values (body req) y i g e es rp cl xs ls now)) = None ->
         jsonb_in (JSON_stringify (JArr es)) = Some v ->
         email_taken db (prepareValue (field (body req) "email")) = true ->
         submit db req now
         = ({| rows := rows db; next_id := next_id db + 1 |},
            server_error ("duplicate key value violates unique constraint "
                          ++ dquote ++ "applications_email_key" ++ dquote))).
Proof.
  split; [|split].
  - intros vals. apply insert_keeps_emails_unique.
  - intros vals T.
    destruct (insert_application_never_twice db vals T) as (db' & e & Ei & Er).
    exists db', e. split; [exact Ei|]. split; [exact Er|]. split.
    + intros id. now apply get_application_rows.
    + intros cols' I S N.
      assert (T' : email_taken db (default JNull (assoc "email" cols')) = true).
      { now rewrite (store_jsonb_email _ _ S). }
      rewrite (insert_application_taken db vals cols' I S N T') in Ei.
      now inversion Ei.
  - intros req now y i g e es rp cl xs ls v P I J T. unfold submit.
    assert (V : validate req now = Continue (values (body req) y i g e es rp cl xs ls now)).
    { apply validate_continue. do 9 eexists. split; [exact P | reflexivity]. }
    rewrite V.
    erewrite insert_application_taken; [reflexivity | exact I | | |].
    + unfold store_jsonb.
      replace (assoc "additional_education"
                 (candidate (values (body req) y i g e es rp cl xs ls now)))
        with (Some (JStr (JSON_stringify (JArr es)))) by reflexivity.
      rewrite J. reflexivity.
    + now apply validated_not_null.
    + rewrite assoc_set_prop_ne by discriminate. exact T.
Qed.

Lemma email_is_unique_witness :
  let db1 := fst (@submit sample_runtime sample_postgres empty_db sample_request sample_now) in
  let again := with_field "full_name" (JStr "Someone Else") sample_request in
  @submit sample_runtime sample_postgres db1 again sample_now
  = ({| rows := rows db1; next_id := next_id db1 + 1 |},
     server_error ("duplicate key value violates unique constraint "
                   ++ dquote ++ "applications_email_key" ++ dquote))
  /\ exists db' e,
      @insert_application sample_postgres db1
        [ JStr "Someone Else"; JStr "asha@example.org" ] = (db', inl e)
      /\ rows db' = rows db1
      /\ (forall id, @get_application sample_runtime sample_postgres db' id
                     = @get_application sample_runtime sample_postgres db1 id).
Proof.
  intros db1 again. split.
  - eapply (proj2 (proj2 (@email_is_unique sample_runtime sample_postgres db1))).
    + constructor; reflexivity.
    + reflexivity.
    + reflexivity.
    + reflexivity.
  - destruct (proj1 (proj2 (@email_is_unique sample_runtime sample_postgres db1))
                [ JStr "Someone Else"; JStr "asha@example.org" ] eq_refl)
      as (db' & e & Ei & Er & Eg & _).
    exists db', e. auto.
Defined.

(** ** Status update *)

Lemma select_by_id_matches (db : Db) (n : Z) (r : Row) :
  In r (select_by_id db n) -> In r (rows db) /\ row_id r = n.
Proof.
  unfold select_by_id. rewrite filter_In. intros [Hin E].
  split; [exact Hin | now apply Z.eqb_eq].
Qed.

Lemma select_by_id_none (db : Db) (n : Z) :
  (forall r, In r (rows db) -> row_id r <> n) -> select_by_id db n = [].
Proof.
  intros Hn. destruct (select_by_id db n) as [|r rs] eqn:S; [reflexivity|].
  assert (In r (select_by_id db n)) as Hin by (rewrite S; now left).
  apply select_by_id_matches in Hin. destruct Hin as [Hin E].
  now destruct (Hn r Hin).
Qed.





(** ** Experience details of the inexperienced *)




Lemma store_jsonb_other `{Postgres} (cols cols' : list (string * JsVal)) (k : string) :
  store_jsonb cols = Some cols' -> k <> "additional_education" ->
  assoc k cols' = assoc k cols.
Proof.
  unfold store_jsonb.
  destruct (assoc "additional_education" cols) as [[| | | |text| | |]|];
    try discriminate; try (intros E; inversion E; reflexivity).
  destruct (jsonb_in text); [|discriminate].
  intros E N. inversion E. apply assoc_set_prop_ne. congruence.
Qed.

Lemma insert_application_inr `{Postgres} (db db' : Db) (vals : list JsVal) (id : Z) :
  insert_application db vals = (db', inr id) ->
  exists cols',
    store_jsonb (candidate vals) = Some cols'
    /\ id = next_id db
    /\ db' = {| rows := rows db ++ [ {| row_id := id; row_cols := cols' |} ];
                next_id := id + 1 |}.
Proof.
  unfold insert_application. fold (candidate vals).
  destruct (input_error _); [discriminate|].
  destruct (store_jsonb _) as [cols'|]; [|discriminate].
  destruct (List.find _ _); [discriminate|].
  destruct (email_taken _ _); [discriminate|].
  intros E. inversion E. subst. exists cols'. auto.
Qed.





(** ** Deleting and clearing *)

(** The clear handler answers success and empties the table whatever
    happens to the files. *)
Lemma clear_always_succeeds `{Postgres} (uploadDir : string) (db : Db) (fs : Fs) :
  exists fs' log,
    clear_applications uploadDir db fs
    = ({| rows := []; next_id := 1 |}, fs',
       ok [("message", JStr "All applications cleared successfully")], log).
Proof.
  unfold clear_applications.
  destruct (readdir fs uploadDir) as [msg|names]; [eauto|].
  destruct (unlink_all uploadDir fs names) as [fs' log]. eauto.
Qed.

(** What the delete handler does when the resume of the row cannot be
    unlinked: the row is gone and the answer is 500. *)
Lemma delete_application_unlink_error `{Postgres}
      (db : Db) (fs : Fs) (id : string) (n : Z) (r : Row) (rs : list Row)
      (path msg : string) :
  int4_in id = Some n ->
  select_by_id db n = r :: rs ->
  column r "resume_path" = JStr path ->
  path <> EmptyString ->
  assoc path (entries fs) = Some (Some msg) ->
  delete_application db fs id
  = ({| rows := List.filter (fun r => negb (row_id r =? n)) (rows db);
        next_id := next_id db |},
     fs, server_error msg, [ "Error deleting application: " ++ msg ]).
Proof.
  intros I S C N A. unfold delete_application. rewrite I, S, C.
  unfold unlink_if_present, existsSync, unlink. rewrite A.
  destruct path; [congruence | reflexivity].
Qed.

Lemma assoc_remove_entry (p q : string) (fs : Fs) :
  assoc q (entries (remove_entry p fs))
  = if String.eqb p q then None else assoc q (entries fs).
Proof.
  unfold remove_entry. simpl.
  induction (entries fs) as [|[k a] l IH]; simpl.
  - now destruct (String.eqb p q).
  - destruct (String.eqb p k) eqn:Ek; simpl.
    + apply String.eqb_eq in Ek. subst k. rewrite IH.
      rewrite (String.eqb_sym q p). now destruct (String.eqb p q).
    + destruct (String.eqb q k) eqn:Eq; [|exact IH].
      apply String.eqb_eq in Eq. subst k. now rewrite Ek.
Qed.

Lemma unlink_if_present_ok `{Postgres} (fs : Fs) (v : JsVal) :
  (forall p msg, assoc p (entries fs) <> Some (Some msg)) ->
  exists fs', unlink_if_present fs v = inr fs'
              /\ forall p msg, assoc p (entries fs') <> Some (Some msg).
Proof.
  intros Hok. unfold unlink_if_present.
  destruct v as [| | | |path| | |]; eauto.
  unfold existsSync, unlink.
  destruct (assoc path (entries fs)) as [[msg|]|] eqn:A.
  - now destruct (Hok path msg).
  - destruct (truthy (JStr path) && true); [|eauto].
    eexists. split; [reflexivity|]. intros q msg. rewrite assoc_remove_entry.
    destruct (String.eqb path q); [discriminate | apply Hok].
  - rewrite andb_false_r. eauto.
Qed.

(** When no file refuses to be unlinked, deleting an existing application
    removes its row and answers success. *)
Lemma delete_application_succeeds `{Postgres} (db : Db) (fs : Fs) (id : string)
      (n : Z) (r : Row) (rs : list Row) :
  int4_in id = Some n ->
  select_by_id db n = r :: rs ->
  (forall p msg, assoc p (entries fs) <> Some (Some msg)) ->
  exists fs',
    delete_application db fs id
    = ({| rows := List.filter (fun r => negb (row_id r =? n)) (rows db);
          next_id := next_id db |},
       fs',
       ok [("id", JNum (pretty (row_id r)));
           ("message", JStr "Application deleted successfully")],
       []).
Proof.
  intros I S Hok. unfold delete_application. rewrite I, S.
  destruct (unlink_if_present_ok fs (column r "resume_path") Hok) as (fs1 & -> & Hok1).
  destruct (unlink_if_present_ok fs1 (column r "cover_letter_path") Hok1) as (fs2 & -> & _).
  eauto.
Qed.

(** ** Ids come from the sequence *)

Lemma set_status_id (status : JsVal) (n : Z) (r : Row) :
  row_id (set_status status n r) = row_id r.
Proof. unfold set_status. now destruct (row_id r =? n). Qed.

Lemma update_status_keeps_ids_fresh `{Postgres} (db : Db) (id : string)
      (b : gmap string JsVal) :
  fresh_ids db -> fresh_ids (fst (update_status db id b)).
Proof.
  intros F. unfold update_status.
  destruct (negb _); [exact F|].
  destruct (int4_in id) as [n|]; [|exact F].
  destruct (select_by_id db n); [exact F|].
  unfold fresh_ids in *. simpl.
  induction (rows db) as [|x xs IH]; [constructor|].
  inversion F; subst. constructor; [now rewrite set_status_id | now apply IH].
Qed.

Lemma delete_application_keeps_ids_fresh `{Postgres} (db : Db) (fs : Fs) (id : string) :
  fresh_ids db -> fresh_ids (fst (fst (fst (delete_application db fs id)))).
Proof.
  intros F.
  assert (F' : forall n, Forall (fun r => row_id r < next_id db)
                           (List.filter (fun r => negb (row_id r =? n)) (rows db))).
  { intros n. unfold fresh_ids in F.
    induction (rows db) as [|x xs IH]; [constructor|].
    inversion F; subst. simpl.
    destruct (negb (row_id x =? n)); [constructor|]; auto. }
  unfold delete_application.
  destruct (int4_in id) as [n|]; [|exact F].
  destruct (select_by_id db n); [exact F|].
  destruct (unlink_if_present fs _); [apply F'|].
  destruct (unlink_if_present _ _); apply F'.
Qed.

Lemma clear_applications_keeps_ids_fresh `{Postgres} (uploadDir : string)
      (db : Db) (fs : Fs) :
  fresh_ids (fst (fst (fst (clear_applications uploadDir db fs)))).
Proof.
  destruct (clear_always_succeeds uploadDir db fs) as (fs' & log & ->). constructor.
Qed.

(** C8. On the sample disk, deleting application 1, whose resume exists
    and cannot be unlinked, removes the row and answers 500 with the error
    of the unlink; clearing, on the same disk, answers success. *)
Theorem delete_reports_unlink_failure :
  @delete_application sample_postgres two_rows sample_disk "1"
  = ({| rows := [ sample_row 2 "ben@example.org" ]; next_id := 3 |},
     sample_disk,
     server_error "EACCES: permission denied, unlink '/srv/Uploads/resume-1.pdf'",
     [ "Error deleting application: EACCES: permission denied, unlink '/srv/Uploads/resume-1.pdf'" ])
  /\ clear_applications sample_uploads two_rows sample_disk
     = ({| rows := []; next_id := 1 |},
        {| readdir_error := None;
           entries :=
             [ ("/srv/Uploads/resume-1.pdf",
                Some "EACCES: permission denied, unlink '/srv/Uploads/resume-1.pdf'") ] |},
        ok [("message", JStr "All applications cleared successfully")],
        [ "Error deleting file: EACCES: permission denied, unlink '/srv/Uploads/resume-1.pdf'" ]).
Proof. split; vm_compute; reflexivity. Qed.

(** ** Schema synchronisation *)

Section SchemaFacts.
Variable Catalog : Type.
Variable exec : Statement -> Catalog -> string + Catalog.
Variable existing : Catalog -> string + list string.

(** [send] sends everything, or stops right after the statement that
    failed. *)
Lemma send_spec (ss : list Statement) (c : Catalog) :
  (exists c', send Catalog exec ss c = (c', ss, None))
  \/ (exists c' before q rest msg,
         ss = (before ++ q :: rest)%list
         /\ send Catalog exec ss c = (c', (before ++ [ q ])%list, Some msg)
         /\ exec q c' = inl msg).
Proof.
  revert c. induction ss as [|q ss IH]; intros c; simpl.
  - left. eauto.
  - destruct (exec q c) as [msg|c1] eqn:E.
    + right. exists c, [], q, ss, msg. auto.
    + destruct (IH c1) as [[c' S]|(c' & before & q' & rest & msg & -> & S & F)];
        rewrite S.
      * left. eauto.
      * right. exists c', (q :: before), q', rest, msg. auto.
Qed.

(** The loop sends the whole plan, or a prefix of it that ends with the
    statement that failed; the console has one line for each column whose
    statements all went through. *)
Lemma add_columns_spec (missing : list Column) (c : Catalog) :
  (exists c',
      add_columns Catalog exec missing c
      = (c', plan missing, map added_line missing, None))
  \/ (exists c' before q rest msg done,
         plan missing = (before ++ q :: rest)%list
         /\ add_columns Catalog exec missing c
            = (c', (before ++ [ q ])%list, map added_line done, Some msg)
         /\ exec q c' = inl msg
         /\ exists later, missing = (done ++ later)%list /\ later <> []).
Proof.
  revert c. induction missing as [|m ms IH]; intros c; cbn [add_columns].
  - left. eauto.
  - destruct (send_spec (statements_for m) c)
      as [[c1 S]|(c1 & before & q & rest & msg & Pm & S & F)]; rewrite S.
    + destruct (IH c1)
        as [[c' A]|(c' & before & q & rest & msg & done & Pl & A & F & later & Ml & Nl)];
        rewrite A.
      * left. eauto.
      * right. exists c', (statements_for m ++ before)%list, q, rest, msg, (m :: done).
        unfold plan in *. cbn [flat_map map]. rewrite Pl, <- !app_assoc.
        repeat split; auto. exists later. subst ms. auto.
    + right. exists c1, before, q, (rest ++ plan ms)%list, msg, [].
      unfold plan. cbn [flat_map map]. rewrite Pm, <- app_assoc.
      repeat split; auto. exists (m :: ms). split; [reflexivity | discriminate].
Qed.

End SchemaFacts.

(** C9, as amended.  A run of the synchroniser always resolves, and the
    server listens whatever the promise chain of the start does.  The
    statements it sends are the planned ones in order, either all of them
    or those up to and including the first one the server refuses: nothing
    is sent after a failure, the columns not yet reached stay missing, and
    the console ends with the error. *)
Theorem schema_sync_stops_at_first_failure
        (Catalog : Type) (exec : Statement -> Catalog -> string + Catalog)
        (existing : Catalog -> string + list string) (c : Catalog) :
  let r := syncApplicationsTable Catalog exec existing c in
  settled r = Resolved
  /\ (forall connect_error,
         listening Catalog (startup Catalog exec existing connect_error c) = true
         /\ settled (after Catalog (startup Catalog exec existing connect_error c))
            = Resolved)
  /\ (forall names,
         existing c = inr names ->
         (issued r = plan (missingColumns names)
          /\ console r = map added_line (missingColumns names))
         \/ (exists before q rest msg done later,
                plan (missingColumns names) = (before ++ q :: rest)%list
                /\ issued r = (before ++ [ q ])%list
                /\ exec q (catalog r) = inl msg
                /\ missingColumns names = (done ++ later)%list
                /\ later <> []
                /\ console r
                   = List.app (map added_line done)
                              [ "Error syncing applications table: " ++ msg ])).
Proof.
  intros r. subst r. split; [|split].
  - unfold syncApplicationsTable. destruct (existing c) as [msg|names]; [reflexivity|].
    now destruct (add_columns Catalog exec (missingColumns names) c) as [[[c1 sent] log] err].
  - intros connect_error. split; [reflexivity|].
    unfold startup. simpl. destruct connect_error as [msg|]; [reflexivity|].
    unfold createApplicationsTable. destruct (exec CreateTable c) as [msg|c1]; simpl;
      [reflexivity|].
    unfold syncApplicationsTable. destruct (existing c1) as [msg|names]; [reflexivity|].
    now destruct (add_columns Catalog exec (missingColumns names) c1) as [[[c2 sent] log] err].
  - intros names E. unfold syncApplicationsTable. rewrite E.
    destruct (add_columns_spec Catalog exec (missingColumns names) c)
      as [[c' A]|(c' & before & q & rest & msg & done & Pl & A & F & later & Ml & Nl)];
      rewrite A; simpl.
    + left. split; [reflexivity | apply app_nil_r].
    + right. exists before, q, rest, msg, done, later. auto 10.
Qed.

Lemma schema_sync_stops_at_first_failure_witness :
  let r := syncApplicationsTable (list string) sample_exec sample_existing sample_catalog in
  settled r = Resolved
  /\ issued r = [ AddColumn "dob" "DATE" "DEFAULT 1970-01-01" ]
  /\ console r
     = [ "Error syncing applications table: column dob is of type date but default expression is of type integer" ]
  /\ map name (missingColumns sample_catalog) = [ "dob"; "status" ].
Proof.
  intros r.
  destruct (schema_sync_stops_at_first_failure (list string) sample_exec sample_existing
              sample_catalog) as (S & _ & P).
  split; [exact S|].
  destruct (P sample_catalog eq_refl)
    as [[Pi Pc]|(before & q & rest & msg & done & later & _ & _ & _ & _ & _ & _)].
  - vm_compute in Pi. discriminate.
  - vm_compute. auto.
Defined.

(** C9, as stated, fails: with [dob] and [status] missing and the addition
    of [dob] refused, no statement for [status] is ever sent. *)
Lemma columns_are_not_independent :
  ~ (forall (Catalog : Type) (exec : Statement -> Catalog -> string + Catalog)
            (existing : Catalog -> string + list string) (c : Catalog)
            (names : list string) (m : Column),
        existing c = inr names ->
        In m (missingColumns names) ->
        In (AddColumn (name m) (type m) (default_clause m))
           (issued (syncApplicationsTable Catalog exec existing c))).
Proof.
  intros Hall.
  specialize (Hall (list string) sample_exec sample_existing sample_catalog
                   sample_catalog (col "status" "VARCHAR(50)" true (JStr "Pending"))
                   eq_refl).
  assert (In (col "status" "VARCHAR(50)" true (JStr "Pending"))
             (missingColumns sample_catalog)) as Hin.
  { vm_compute. tauto. }
  specialize (Hall Hin). vm_compute in Hall.
  destruct Hall as [E|[]]. discriminate.
Qed.

(** * Further properties of the handlers *)

(** ** Invariants of the reachable tables *)

Lemma NoDup_map_filter {A B : Type} (f : A -> B) (keep : A -> bool) (l : list A) :
  NoDup (map f l) -> NoDup (map f (List.filter keep l)).
Proof.
  induction l as [|a l IH]; simpl; intros N; [exact N|].
  apply NoDup_cons in N. destruct N as [Ha N].
  destruct (keep a); simpl; [|now apply IH].
  apply NoDup_cons. split; [|now apply IH].
  intros Hin. apply Ha.
  apply list_elem_of_In in Hin. apply list_elem_of_In.
  apply in_map_iff in Hin. destruct Hin as [x [Ex Hx]].
  apply filter_In in Hx. apply in_map_iff. exists x. tauto.
Qed.

Lemma submit_table `{JsRuntime} `{Postgres} (db : Db) (req : Request) (now : string) :
  fst (submit db req now) = db
  \/ exists vals, fst (submit db req now) = fst (insert_application db vals).
Proof.
  unfold submit. destruct (validate req now) as [vals|r|e]; [|now left|now left].
  right. exists vals. now destruct (insert_application db vals) as [db' [e|n]].
Qed.

Lemma insert_keeps_ids_unique `{Postgres} (db : Db) (vals : list JsVal) :
  fresh_ids db -> unique_ids db -> unique_ids (fst (insert_application db vals)).
Proof.
  intros F U. unfold insert_application.
  destruct (input_error _); [exact U|].
  destruct (store_jsonb _) as [cols'|]; [|exact U].
  destruct (List.find _ _); [exact U|].
  destruct (email_taken db _); [exact U|].
  unfold unique_ids in *. simpl. rewrite map_app. simpl.
  apply NoDup_app. split; [exact U|]. split; [|apply NoDup_singleton].
  intros x Hx Hin. apply list_elem_of_In in Hx, Hin.
  simpl in Hin. destruct Hin as [<-|[]].
  apply in_map_iff in Hx. destruct Hx as [r [Er Hr]].
  unfold fresh_ids in F. rewrite Forall_forall in F.
  apply list_elem_of_In in Hr. specialize (F r Hr). lia.
Qed.

Lemma update_status_keeps_ids_unique `{Postgres} (db : Db) (id : string)
      (b : gmap string JsVal) :
  unique_ids db -> unique_ids (fst (update_status db id b)).
Proof.
  intros U. unfold update_status.
  destruct (negb _); [exact U|].
  destruct (int4_in id) as [n|]; [|exact U].
  destruct (select_by_id db n); [exact U|].
  unfold unique_ids in *. simpl. rewrite map_map.
  erewrite map_ext; [exact U|]. intros x. apply set_status_id.
Qed.

Lemma delete_application_rows `{Postgres} (db : Db) (fs : Fs) (id : string) :
  rows (fst (fst (fst (delete_application db fs id)))) = rows db
  \/ exists n, int4_in id = Some n
               /\ rows (fst (fst (fst (delete_application db fs id))))
                  = List.filter (fun r => negb (row_id r =? n)) (rows db).
Proof.
  unfold delete_application.
  destruct (int4_in id) as [n|]; [|now left].
  destruct (select_by_id db n); [now left|].
  right. exists n. split; [reflexivity|].
  destruct (unlink_if_present fs _); [reflexivity|].
  now destruct (unlink_if_present _ _).
Qed.

Lemma step_keeps_invariants `{JsRuntime} `{Postgres} (db db' : Db) :
  Step db db' ->
  fresh_ids db /\ unique_ids db /\ unique_emails db ->
  fresh_ids db' /\ unique_ids db' /\ unique_emails db'.
Proof.
  intros S (F & U & E). destruct S as [db req now|db id b|db fs id|dir db fs].
  - destruct (submit_table db req now) as [->|[vals ->]]; [auto|].
    auto using insert_keeps_ids_fresh, insert_keeps_ids_unique,
      insert_keeps_emails_unique.
  - auto using update_status_keeps_ids_fresh, update_status_keeps_ids_unique,
      update_status_keeps_emails_unique.
  - split; [now apply delete_application_keeps_ids_fresh|].
    unfold unique_ids, unique_emails.
    destruct (delete_application_rows db fs id) as [->|[n [_ ->]]]; [auto|].
    split; now apply NoDup_map_filter.
  - destruct (clear_always_succeeds dir db fs) as (fs' & log & ->).
    simpl. repeat split; constructor.
Qed.

(** X1. Whatever requests were served since the table was created, every
    id in it was drawn from the sequence, no two rows share an id and no
    two rows share an email. *)
Theorem reachable_invariants `{JsRuntime} `{Postgres} (db : Db) :
  Reachable db -> fresh_ids db /\ unique_ids db /\ unique_emails db.
Proof.
  induction 1 as [|db db' R IH S].
  - repeat split; constructor.
  - exact (step_keeps_invariants db db' S IH).
Qed.

Lemma reachable_invariants_witness :
  let db1 := fst (@submit sample_runtime sample_postgres empty_db sample_request sample_now) in
  let db2 := fst (@update_status sample_postgres db1 "1" {[ "status" := JStr "Approved" ]}) in
  fresh_ids db2 /\ unique_ids db2 /\ unique_emails db2.
Proof.
  intros db1 db2.
  apply (@reachable_invariants sample_runtime sample_postgres).
  eapply reach_step; [eapply reach_step; [apply reach_created|]|].
  - apply (@step_submit sample_runtime sample_postgres empty_db sample_request sample_now).
  - apply (@step_update_status sample_runtime sample_postgres).
Defined.

Lemma select_by_id_unique (db : Db) (n : Z) :
  unique_ids db -> select_by_id db n = [] \/ exists r, select_by_id db n = [ r ].
Proof.
  unfold unique_ids, select_by_id.
  induction (rows db) as [|x xs IH]; simpl; intros N; [now left|].
  apply NoDup_cons in N. destruct N as [Hx N].
  destruct (row_id x =? n) eqn:E; [|now apply IH].
  right. exists x. f_equal.
  destruct (List.filter (fun r => row_id r =? n) xs) as [|y ys] eqn:Fy; [reflexivity|].
  exfalso. apply Hx.
  assert (In y (List.filter (fun r => row_id r =? n) xs)) as Hy by (rewrite Fy; now left).
  apply filter_In in Hy. destruct Hy as [Hy Ey].
  apply Z.eqb_eq in E, Ey. apply list_elem_of_In, in_map_iff.
  exists y. split; [congruence | exact Hy].
Qed.

(** X2. In a reachable table an id names at most one application, so the
    row a handler takes as [rows[0]] is the only one with that id. *)
Theorem reachable_id_unambiguous `{JsRuntime} `{Postgres} (db : Db) (n : Z) :
  Reachable db ->
  select_by_id db n = [] \/ exists r, select_by_id db n = [ r ] /\ row_id r = n.
Proof.
  intros R.
  assert (I : fresh_ids db /\ unique_ids db /\ unique_emails db).
  { induction R as [|db db' R IH S]; [repeat split; constructor|].
    exact (step_keeps_invariants db db' S IH). }
  destruct I as (_ & U & _).
  destruct (select_by_id_unique db n U) as [E|[r E]]; [now left|].
  right. exists r. split; [exact E|].
  assert (In r (select_by_id db n)) as Hin by (rewrite E; now left).
  now apply select_by_id_matches in Hin.
Qed.

Lemma reachable_id_unambiguous_witness :
  let db1 := fst (@submit sample_runtime sample_postgres empty_db sample_request sample_now) in
  select_by_id db1 1 = [] \/ exists r, select_by_id db1 1 = [ r ] /\ row_id r = 1.
Proof.
  intros db1.
  apply (@reachable_id_unambiguous sample_runtime sample_postgres).
  eapply reach_step; [apply reach_created|].
  apply (@step_submit sample_runtime sample_postgres empty_db sample_request sample_now).
Defined.

(** ** What a fetch shows of an accepted submission *)

Lemma submit_ok_inv `{JsRuntime} `{Postgres} (db db' : Db) (req : Request)
      (now : string) (id msg : JsVal) :
  submit db req now = (db', ok [("id", id); ("message", msg)]) ->
  exists vals cols',
    validate req now = Continue vals
    /\ store_jsonb (candidate vals) = Some cols'
    /\ id = JNum (pretty (next_id db))
    /\ db' = {| rows := rows db ++ [ {| row_id := next_id db; row_cols := cols' |} ];
                next_id := next_id db + 1 |}.
Proof.
  unfold submit. destruct (validate req now) as [vals|r|err] eqn:V.
  - destruct (insert_application db vals) as [db1 [err|n]] eqn:I;
      intros E; inversion E; subst.
    apply insert_application_inr in I. destruct I as (cols' & S & -> & ->).
    exists vals, cols'. auto.
  - intros E. inversion E; subst.
    apply validate_respond_status in V. discriminate.
  - discriminate.
Qed.

Lemma assoc_row_object (r : Row) (k : string) :
  k <> "id" -> assoc k (row_object r) = assoc k (row_cols r).
Proof.
  intros N. unfold row_object. simpl.
  destruct (String.eqb k "id") eqn:E; [|reflexivity].
  apply String.eqb_eq in E. congruence.
Qed.

(** What a fetch of the new id answers after an accepted submission: the
    row as stored, with [additional_education] made an array. *)
Lemma fetch_after_submit `{JsRuntime} `{Postgres} (db db' : Db) (req : Request)
      (now : string) (id msg : JsVal) :
  submit db req now = (db', ok [("id", id); ("message", msg)]) ->
  fresh_ids db ->
  int4_in (pretty (next_id db)) = Some (next_id db) ->
  exists vals cols' application,
    validate req now = Continue vals
    /\ store_jsonb (candidate vals) = Some cols'
    /\ id = JNum (pretty (next_id db))
    /\ get_application db' (pretty (next_id db)) = ok [("application", JObj application)]
    /\ assoc "id" application = Some id
    /\ forall k, k <> "id" -> k <> "additional_education" ->
                 assoc k application = assoc k (candidate vals).
Proof.
  intros S F I. apply submit_ok_inv in S. destruct S as (vals & cols' & V & J & -> & ->).
  exists vals, cols'. eexists. split; [exact V|]. split; [exact J|]. split; [reflexivity|].
  split; [apply (get_application_inserted db cols' F I)|]. split.
  - rewrite assoc_set_prop_ne by discriminate. reflexivity.
  - intros k Nid Nae.
    rewrite assoc_set_prop_ne by congruence.
    rewrite assoc_row_object by exact Nid. simpl row_cols.
    apply (store_jsonb_other _ _ k J Nae).
Qed.




(** X4. The id, the status and the paths of an application are set by
    the server: whatever the form says, the stored status is "Pending", the
    id is the next of the sequence, the resume path is the path of the
    uploaded file, and the cover letter path is that of the uploaded
    cover letter, or [null] when there was none. *)
Theorem server_sets_id_and_status `{JsRuntime} `{Postgres}
        (db db' : Db) (req : Request) (now : string) (id msg : JsVal) :
  submit db req now = (db', ok [("id", id); ("message", msg)]) ->
  fresh_ids db ->
  int4_in (pretty (next_id db)) = Some (next_id db) ->
  id = JNum (pretty (next_id db))
  /\ exists application path,
      get_application db' (pretty (next_id db)) = ok [("application", JObj application)]
      /\ assoc "id" application = Some id
      /\ assoc "status" application = Some (JStr "Pending")
      /\ assoc "resume_path" application = Some (JStr path)
      /\ exists f, files req = Some f /\ resume f = Some path
                   /\ assoc "cover_letter_path" application
                      = Some (match cover_letter f with
                              | Some p => JStr p
                              | None => JNull
                              end).
Proof.
  intros S F I.
  destruct (fetch_after_submit db db' req now id msg S F I)
    as (vals & cols' & application & V & _ & Eid & G & Aid & K).
  split; [exact Eid|].
  apply validate_continue in V.
  destruct V as (y & i & g & e & es & rp & cl & xs & ls & P & ->).
  pose proof (passes_resume _ _ _ _ _ _ _ _ _ _ P) as Prp.
  pose proof (passes_cover_letter _ _ _ _ _ _ _ _ _ _ P) as Pcl.
  pose proof (passes_resume_given _ _ _ _ _ _ _ _ _ _ P) as Trp.
  revert Prp Pcl. unfold file_path.
  destruct (files req) as [f|] eqn:Ef; [|discriminate].
  destruct (resume f) as [path|] eqn:Er; intros Prp Pcl; inversion Prp; subst rp;
    [|discriminate].
  injection Pcl as <-.
  exists application, path. split; [exact G|]. split; [exact Aid|].
  rewrite !K by discriminate.
  split; [reflexivity|]. split; [reflexivity|].
  exists f. split; [reflexivity|]. split; [exact Er|].
  now destruct (cover_letter f).
Qed.

Lemma server_sets_id_and_status_witness :
  let req := with_field "status" (JStr "Approved") sample_request in
  exists application path,
    @get_application sample_runtime sample_postgres
      (fst (@submit sample_runtime sample_postgres empty_db req sample_now))
      (pretty (next_id empty_db))
    = ok [("application", JObj application)]
    /\ assoc "id" application = Some (JNum "1")
    /\ assoc "status" application = Some (JStr "Pending")
    /\ assoc "resume_path" application = Some (JStr path)
    /\ exists f, files req = Some f /\ resume f = Some path
                 /\ assoc "cover_letter_path" application
                    = Some (match cover_letter f with
                            | Some p => JStr p
                            | None => JNull
                            end).
Proof.
  intros req.
  apply (@server_sets_id_and_status sample_runtime sample_postgres empty_db _ req
           sample_now (JNum "1") (JStr "Application submitted successfully")).
  - reflexivity.
  - constructor.
  - reflexivity.
Defined.

(** ** Edges of the validation *)

Lemma stages_before_files `{JsRuntime} (req : Request)
      (y i g e : option Double) (es : list JsVal) (rp cl xs ls : JsVal) (now : string) :
  Passes req y i g e es rp cl xs ls ->
  forall fs',
    validate {| body := body req; files := fs' |} now
    = (resumePath ← file_path fs' "resume" resume;
       coverLetterPath ← file_path fs' "cover_letter" cover_letter;
       _ ← (if negb (truthy resumePath)
            then Respond (bad_request "Resume is required") else Continue tt);
       expectedSalary ← float_or_null (field (body req) "expected_salary");
       lastSalary ← float_or_null (field (body req) "last_salary");
       Continue (values (body req) y i g e es resumePath coverLetterPath
                        expectedSalary lastSalary now)).
Proof.
  intros [P0 Py Pi Pg Pe P1 Pes P2 _ _ _ _ _] fs'.
  apply check_required_continue in P0.
  unfold validate. simpl body. simpl files.
  rewrite P0, Py, Pi, Pg, Pe. simpl. rewrite P1. simpl.
  rewrite Pes. simpl. rewrite P2. reflexivity.
Qed.

(** X5. A form that would be accepted with a resume attached is answered
    400 "Resume is required" when the resume is left out, and 500 when the
    request is not a multipart one at all; nothing is stored either way. *)
Theorem resume_is_required `{JsRuntime} `{Postgres}
        (db : Db) (b : gmap string JsVal) (cl : option string) (p now : string)
        (vals : list JsVal) :
  validate {| body := b; files := Some {| resume := Some p; cover_letter := cl |} |} now
  = Continue vals ->
  submit db {| body := b; files := Some {| resume := None; cover_letter := cl |} |} now
  = (db, bad_request "Resume is required")
  /\ submit db {| body := b; files := None |} now
     = (db, server_error "Cannot read properties of undefined (reading 'resume')").
Proof.
  intros V. apply validate_continue in V.
  destruct V as (y & i & g & e & es & rp & c & xs & ls & P & _).
  pose proof (stages_before_files _ y i g e es rp c xs ls now P) as S.
  simpl body in S.
  split; unfold submit; rewrite S; reflexivity.
Qed.

Lemma resume_is_required_witness :
  @submit sample_runtime sample_postgres empty_db
    {| body := sample_body; files := Some {| resume := None; cover_letter := None |} |}
    sample_now
  = (empty_db, bad_request "Resume is required")
  /\ @submit sample_runtime sample_postgres empty_db
       {| body := sample_body; files := None |} sample_now
     = (empty_db, server_error "Cannot read properties of undefined (reading 'resume')").
Proof.
  eapply (@resume_is_required sample_runtime sample_postgres empty_db sample_body None
            "/srv/Uploads/resume-1.pdf" sample_now).
  reflexivity.
Defined.

Lemma stages_before_decode `{JsRuntime} (req : Request) (now : string)
      (y i g e : option Double) (es0 : list JsVal) (rp cl xs ls : JsVal) :
  Passes (without_field "additional_education" req) y i g e es0 rp cl xs ls ->
  validate req now
  = (additionalEducation ←
       decode_additional_education (field (body req) "additional_education");
     _ ← check_entries additionalEducation;
     resumePath ← file_path (files req) "resume" resume;
     coverLetterPath ← file_path (files req) "cover_letter" cover_letter;
     _ ← (if negb (truthy resumePath)
          then Respond (bad_request "Resume is required") else Continue tt);
     expectedSalary ← float_or_null (field (body req) "expected_salary");
     lastSalary ← float_or_null (field (body req) "last_salary");
     Continue (values (body req) y i g e additionalEducation resumePath
                      coverLetterPath expectedSalary lastSalary now)).
Proof.
  intros [P0 Py Pi Pg Pe P1 _ _ _ _ _ _ _].
  pose proof (agree_delete "additional_education" (body req)) as A.
  simpl in *.
  rewrite (missingFields_agree _ _ _ A eq_refl) in P0.
  rewrite (A "ssc_year" eq_refl) in Py.
  rewrite (A "intermediate_year" eq_refl) in Pi.
  rewrite (A "graduation_year" eq_refl) in Pg.
  rewrite (A "years_experience" eq_refl) in Pe.
  rewrite (check_optional_sections_agree _ _ _ A eq_refl) in P1.
  apply check_required_continue in P0.
  unfold validate. rewrite P0, Py, Pi, Pg, Pe. simpl. rewrite P1. reflexivity.
Qed.

(** X6. When the rest of the form is valid, an [additional_education]
    that is a text [JSON.parse] refuses or reads as something else than an
    array, or a structured value that is not an array, is answered 400
    "Invalid additional_education format" and nothing is stored; an empty
    text counts as no entries. *)
Theorem malformed_additional_education `{JsRuntime} `{Postgres}
        (db : Db) (req : Request) (now : string) (vals0 : list JsVal) :
  validate (without_field "additional_education" req) now = Continue vals0 ->
  (truthy (field (body req) "additional_education") = true ->
   match field (body req) "additional_education" with
   | JStr s => forall es, JSON_parse s <> Some (JArr es)
   | JArr _ => False
   | _ => True
   end ->
   submit db req now = (db, bad_request "Invalid additional_education format"))
  /\ (field (body req) "additional_education" = JStr EmptyString ->
      exists vals,
        validate req now = Continue vals
        /\ assoc "additional_education" (candidate vals)
           = Some (JStr (JSON_stringify (JArr [])))).
Proof.
  intros V0. apply validate_continue in V0.
  destruct V0 as (y & i & g & e & es0 & rp & cl & xs & ls & P0 & _).
  pose proof (stages_before_decode req now y i g e es0 rp cl xs ls P0) as S.
  split.
  - intros T M. unfold submit. rewrite S.
    unfold decode_additional_education. rewrite T.
    destruct (field (body req) "additional_education") as [| | | |s|l| |];
      try reflexivity; [|destruct M].
    destruct (JSON_parse s) as [[| | | | |l| |]|] eqn:J; try reflexivity.
    now destruct (M l).
  - intros E.
    assert (D : decode_additional_education (field (body req) "additional_education")
                = Continue []) by now rewrite E.
    pose proof (passes_with_additional_education req y i g e es0 [] rp cl xs ls P0 D eq_refl)
      as P.
    exists (values (body req) y i g e [] rp cl xs ls now). split; [|reflexivity].
    apply validate_continue. do 9 eexists. split; [exact P | reflexivity].
Qed.

Lemma malformed_additional_education_witness :
  @submit sample_runtime sample_postgres empty_db
    (with_field "additional_education" (JStr "{not json") sample_request) sample_now
  = (empty_db, bad_request "Invalid additional_education format")
  /\ @submit sample_runtime sample_postgres empty_db
       (with_field "additional_education" (JObj [("institution", JStr "X")]) sample_request)
       sample_now
     = (empty_db, bad_request "Invalid additional_education format").
Proof.
  split.
  - apply (@malformed_additional_education sample_runtime sample_postgres empty_db
             (with_field "additional_education" (JStr "{not json") sample_request)
             sample_now
             (@values sample_runtime sample_body (Some (Finite 2015)) None None None []
                (JStr "/srv/Uploads/resume-1.pdf") JNull JNull JNull sample_now));
      [reflexivity | reflexivity |].
    vm_compute. intros es. discriminate.
  - apply (@malformed_additional_education sample_runtime sample_postgres empty_db
             (with_field "additional_education" (JObj [("institution", JStr "X")])
                sample_request)
             sample_now
             (@values sample_runtime sample_body (Some (Finite 2015)) None None None []
                (JStr "/srv/Uploads/resume-1.pdf") JNull JNull JNull sample_now));
      [reflexivity | reflexivity | exact I].
Defined.

Lemma is_missing_spec (b : gmap string JsVal) (f : string) :
  is_missing b f = true <-> counts_as_missing (field b f).
Proof.
  unfold is_missing, counts_as_missing.
  destruct (field b f) as [| |x|r|t|l|ps|ps]; simpl;
    try solve [split; [intros E; try discriminate; auto 6
                      |intros [E|[E|[E|[E|E]]]]; try discriminate; reflexivity]].
  - destruct x; simpl;
      (split; [intros E; try discriminate; auto 6
              |intros [E|[E|[E|[E|E]]]]; try discriminate; reflexivity]).
  - rewrite andb_true_r, negb_true_iff, andb_false_iff, !negb_false_iff, !String.eqb_eq.
    split.
    + intros [->| ->]; auto 6.
    + intros [E|[E|[E|[E|E]]]]; try discriminate; inversion E; auto.
  - split; [|intros [E|[E|[E|[E|E]]]]; discriminate].
    destruct (String.eqb t EmptyString); discriminate.
Qed.

Lemma filter_sublist {A : Type} (keep : A -> bool) (l : list A) :
  Sublist (List.filter keep l) l.
Proof.
  induction l as [|x l IH]; simpl; [constructor|].
  destruct (keep x); now constructor.
Qed.

(** X7. The [missing] list names the required fields whose value is
    [undefined], [null], [false], or the number 0 or NaN, and no other; it
    lists them in the order of [requiredFields], each once. *)
Theorem missing_list_characterised (b : gmap string JsVal) :
  (forall f, In f (missingFields b)
             <-> In f requiredFields /\ counts_as_missing (field b f))
  /\ Sublist (missingFields b) requiredFields
  /\ NoDup (missingFields b).
Proof.
  split; [|split].
  - intros f. rewrite missing_iff, is_missing_spec. tauto.
  - apply filter_sublist.
  - pose proof (NoDup_map_filter (fun x : string => x) (is_missing b) requiredFields) as N.
    rewrite !map_id in N. apply N.
    unfold requiredFields.
    repeat (apply NoDup_cons; split;
            [intros Hin; apply list_elem_of_In in Hin; simpl in Hin;
             repeat (destruct Hin as [Hin|Hin]; [discriminate|]); exact Hin|]).
    constructor.
Qed.

(** ** [parseInt] stops at the first character that is no digit *)

Lemma pretty_N_go_app (x : N) : forall s rest : string,
  pretty_N_go x s ++ rest = pretty_N_go x (s ++ rest).
Proof.
  induction (N.lt_wf_0 x) as [x _ IH]. intros s rest.
  destruct (N.eq_dec x 0%N) as [->|Hx].
  - now rewrite !pretty_N_go_0.
  - rewrite (pretty_N_go_step x s), (pretty_N_go_step x (s ++ rest)) by lia.
    rewrite IH by (apply N.div_lt; lia). reflexivity.
Qed.

Lemma read_digits_stop (rest : string) (v : Z) :
  starts_with_digit rest = false -> read_digits rest v = v.
Proof. destruct rest as [|c r]; simpl; [reflexivity|]. now intros ->. Qed.

Lemma skip_white_prefix (ws s : string) :
  only_white ws = true -> skip_white (ws ++ s) = skip_white s.
Proof.
  induction ws as [|c ws IH]; simpl; [reflexivity|].
  intros E. apply andb_true_iff in E. destruct E as [-> E]. now apply IH.
Qed.

Lemma read_integer_positive_prefix (p : positive) (rest : string) :
  starts_with_digit rest = false ->
  read_integer (pretty (Npos p) ++ rest) = Some (Zpos p)
  /\ exists c r, pretty (Npos p) ++ rest = String c r /\ is_digit c = true.
Proof.
  intros St. unfold pretty, pretty_N.
  destruct (decide (N.pos p = 0%N)) as [E|_]; [discriminate|].
  rewrite pretty_N_go_app. change (String.append EmptyString rest) with rest.
  destruct (pretty_go_head (N.pos p) rest ltac:(lia)) as (c & r & E & D).
  split; [|eauto].
  destruct (read_pretty_go (N.pos p) rest 0) as [k [_ R]].
  rewrite (read_digits_stop rest _ St) in R.
  rewrite E in R. unfold read_integer. rewrite E.
  destruct (skip_white_digit c r D) as (-> & -> & ->).
  simpl starts_with_digit. rewrite D, R. simpl. f_equal.
Qed.

Lemma read_integer_prefix (z : Z) (rest : string) :
  starts_with_digit rest = false -> read_integer (pretty z ++ rest) = Some z.
Proof.
  intros St. destruct z as [|p|p].
  - change (pretty 0) with "0". unfold read_integer.
    destruct (skip_white_digit "0" rest eq_refl) as (S & _ & _).
    change ("0" ++ rest) with (String "0" rest). rewrite S. simpl.
    now rewrite (read_digits_stop rest _ St).
  - apply (read_integer_positive_prefix p rest St).
  - change (pretty (Z.neg p) ++ rest) with (String "-" (pretty (Npos p) ++ rest)).
    destruct (read_integer_positive_prefix p rest St) as [P (c & r & E & D)].
    rewrite E in *. unfold read_integer in *.
    destruct (skip_white_digit c r D) as (S & S1 & S2).
    rewrite S, S1, S2 in P.
    replace (skip_white (String "-" (String c r))) with (String "-" (String c r)).
    + change (code "-" =? 45)%N with true. cbv iota beta.
      destruct (starts_with_digit (String c r)); [|discriminate].
      assert (P' : read_digits (String c r) 0 = Z.pos p) by congruence.
      now rewrite P'.
    + destruct c as [[] [] [] [] [] [] [] []]; try discriminate;
        destruct r as [|c3 r]; reflexivity.
Qed.

(** X8. Integer sanitation is lenient: white space before the numeral and
    anything after it that does not start with a digit are ignored, so
    that a text such as " 2020abc" or "12.5" is taken for 2020 or 12.  The
    number it gives is the double nearest to the numeral: the integer
    itself up to 2^53 in size, a rounded one beyond. *)
Theorem sanitation_reads_a_prefix (ws rest : string) (z : Z)
        (fieldName : string) (isNullable : bool) :
  only_white ws = true ->
  starts_with_digit rest = false ->
  parseInt10 (ws ++ pretty z ++ rest) = Some (to_double z)
  /\ sanitizeInteger (JStr (ws ++ pretty z ++ rest)) fieldName isNullable
     = inr (Some (to_double z))
  /\ (Z.abs z <= 2 ^ 53 -> to_double z = Finite z).
Proof.
  intros W St.
  assert (P : read_integer (ws ++ pretty z ++ rest) = Some z).
  { unfold read_integer. rewrite skip_white_prefix by exact W.
    apply (read_integer_prefix z rest St). }
  split; [|split; [|apply to_double_exact]].
  - unfold parseInt10. now rewrite P.
  - unfold sanitizeInteger, parseInt10. simpl.
    destruct (ws ++ pretty z ++ rest) eqn:E; [discriminate|].
    simpl. now rewrite P.
Qed.

Lemma sanitation_reads_a_prefix_witness :
  parseInt10 (" " ++ pretty 2020 ++ "abc") = Some (Finite 2020)
  /\ sanitizeInteger (JStr (" " ++ pretty 2020 ++ "abc")) "ssc_year" false
     = inr (Some (Finite 2020))
  /\ parseInt10 (pretty 9007199254740993) = Some (Finite 9007199254740992).
Proof.
  split; [|split].
  - apply (sanitation_reads_a_prefix " " "abc" 2020 "ssc_year" false); reflexivity.
  - apply (sanitation_reads_a_prefix " " "abc" 2020 "ssc_year" false); reflexivity.
  - apply (sanitation_reads_a_prefix EmptyString EmptyString 9007199254740993
             "ssc_year" false); reflexivity.
Defined.

(** ** Fetching *)

Lemma normalize_cases `{JsRuntime} (v : JsVal) :
  (exists es, v = JArr es /\ normalize_additional_education v = JArr es)
  \/ (exists s es, v = JStr s /\ s <> EmptyString /\ JSON_parse s = Some (JArr es)
                   /\ normalize_additional_education v = JArr es)
  \/ ((forall es, v <> JArr es)
      /\ (forall s es, v = JStr s -> s <> EmptyString -> JSON_parse s <> Some (JArr es))
      /\ normalize_additional_education v = JArr []).
Proof.
  assert (Other : forall w : JsVal,
             (forall es, w <> JArr es) -> (forall s, w <> JStr s) ->
             normalize_additional_education w = JArr [] ->
             (forall es, w <> JArr es)
             /\ (forall s es, w = JStr s -> s <> EmptyString ->
                              JSON_parse s <> Some (JArr es))
             /\ normalize_additional_education w = JArr []).
  { intros w Na Ns Nv. split; [exact Na|]. split; [|exact Nv].
    intros s es E. now destruct (Ns s). }
  destruct v as [| |x|r|s|l|ps|ps].
  - right. right. apply Other; try discriminate. reflexivity.
  - right. right. apply Other; try discriminate. reflexivity.
  - right. right. apply Other; try discriminate.
    unfold normalize_additional_education. now destruct (truthy (JBool x)).
  - right. right. apply Other; try discriminate.
    unfold normalize_additional_education. now destruct (truthy (JNum r)).
  - destruct s as [|c s]; [right; right|].
    + split; [discriminate|]. split; [|reflexivity].
      intros s es E N. inversion E. congruence.
    + unfold normalize_additional_education. simpl truthy. cbv iota.
      destruct (JSON_parse (String c s)) as [[| | | | |es| |]|] eqn:J;
        try (right; right; split; [discriminate|]; split; [|reflexivity];
             intros s' es' E _; injection E as <-; rewrite J; discriminate).
      right. left. exists (String c s), es. repeat split; auto.
  - left. exists l. split; reflexivity.
  - right. right. apply Other; try discriminate. reflexivity.
  - right. right. apply Other; try discriminate. reflexivity.
Qed.

(** X9. For an id the database reads as an integer, a fetch answers 404
    exactly when no row has it; otherwise it answers the first such row,
    every column as stored except [additional_education], which always
    comes as an array: the stored array, the array a stored text parses
    to, and the empty array for anything else. *)
Theorem fetch_by_id `{JsRuntime} `{Postgres} (db : Db) (id : string) (n : Z) :
  int4_in id = Some n ->
  ((forall r, In r (rows db) -> row_id r <> n) -> get_application db id = not_found)
  /\ (forall r rs,
         select_by_id db n = r :: rs ->
         exists application es,
           get_application db id = ok [("application", JObj application)]
           /\ assoc "id" application = Some (JNum (pretty n))
           /\ (forall k, k <> "id" -> k <> "additional_education" ->
                         assoc k application = assoc k (row_cols r))
           /\ assoc "additional_education" application = Some (JArr es)
           /\ (forall stored, column r "additional_education" = JArr stored -> es = stored)
           /\ (forall s parsed,
                  column r "additional_education" = JStr s -> s <> EmptyString ->
                  JSON_parse s = Some (JArr parsed) -> es = parsed)
           /\ (column r "additional_education" = JNull -> es = [])).
Proof.
  intros I. split.
  - intros Hn. unfold get_application. now rewrite I, (select_by_id_none db n Hn).
  - intros r rs S.
    assert (Er : row_id r = n).
    { assert (In r (select_by_id db n)) as Hin by (rewrite S; now left).
      now apply select_by_id_matches in Hin. }
    unfold get_application. rewrite I, S.
    set (v := column r "additional_education").
    destruct (normalize_cases v)
      as [(es & Ev & Nv)|[(s & es & Ev & Ns & J & Nv)|(Na & Nt & Nv)]].
    + exists (set_prop "additional_education" (JArr es) (row_object r)), es.
      rewrite Nv. split; [reflexivity|]. split.
      { rewrite assoc_set_prop_ne by discriminate. simpl. now rewrite Er. }
      split.
      { intros k Nid Nae. rewrite assoc_set_prop_ne by congruence.
        now apply assoc_row_object. }
      split; [apply assoc_set_prop_eq|].
      repeat split; intros; congruence.
    + exists (set_prop "additional_education" (JArr es) (row_object r)), es.
      rewrite Nv. split; [reflexivity|]. split.
      { rewrite assoc_set_prop_ne by discriminate. simpl. now rewrite Er. }
      split.
      { intros k Nid Nae. rewrite assoc_set_prop_ne by congruence.
        now apply assoc_row_object. }
      split; [apply assoc_set_prop_eq|].
      repeat split; intros; congruence.
    + exists (set_prop "additional_education" (JArr []) (row_object r)), [].
      rewrite Nv. split; [reflexivity|]. split.
      { rewrite assoc_set_prop_ne by discriminate. simpl. now rewrite Er. }
      split.
      { intros k Nid Nae. rewrite assoc_set_prop_ne by congruence.
        now apply assoc_row_object. }
      split; [apply assoc_set_prop_eq|].
      split; [intros stored E; now destruct (Na stored)|].
      split; [|reflexivity].
      intros s parsed E Ns J. now destruct (Nt s parsed E Ns).
Qed.

Lemma fetch_by_id_witness :
  @get_application sample_runtime sample_postgres two_rows "9" = not_found
  /\ exists application es,
      @get_application sample_runtime sample_postgres two_rows "2"
      = ok [("application", JObj application)]
      /\ assoc "id" application = Some (JNum (pretty 2))
      /\ assoc "additional_education" application = Some (JArr es)
      /\ es = [].
Proof.
  split.
  - apply (@fetch_by_id sample_runtime sample_postgres two_rows "9" 9 eq_refl).
    intros r Hin. simpl in Hin. destruct Hin as [<-|[<-|[]]]; discriminate.
  - destruct (proj2 (@fetch_by_id sample_runtime sample_postgres two_rows "2" 2 eq_refl)
                (sample_row 2 "ben@example.org") [] eq_refl)
      as (application & es & G & Aid & _ & Aae & _ & _ & Nu).
    exists application, es. repeat split; auto.
Defined.

(** ** What a status update leaves alone *)

Lemma set_status_column (status : JsVal) (n : Z) (r : Row) (k : string) :
  k <> "status" -> column (set_status status n r) k = column r k.
Proof.
  intros N. unfold set_status, column.
  destruct (row_id r =? n); [|reflexivity]. simpl.
  now rewrite assoc_set_prop_ne by congruence.
Qed.

Lemma set_status_other (status : JsVal) (n : Z) (r : Row) :
  row_id r <> n -> set_status status n r = r.
Proof.
  intros N. unfold set_status.
  destruct (row_id r =? n) eqn:E; [|reflexivity].
  apply Z.eqb_eq in E. congruence.
Qed.

Lemma update_status_rows `{Postgres} (db : Db) (id : string) (b : gmap string JsVal) :
  fst (update_status db id b) = db
  \/ exists n, int4_in id = Some n
               /\ fst (update_status db id b)
                  = {| rows := map (set_status (field b "status") n) (rows db);
                       next_id := next_id db |}.
Proof.
  unfold update_status.
  destruct (negb _); [now left|].
  destruct (int4_in id) as [n|]; [|now left].
  destruct (select_by_id db n); [now left|].
  right. exists n. auto.
Qed.

(** X10. A status update, whatever it answers, keeps the rows, their
    order and ids and the sequence; it changes no column but [status], and
    no row but those with the id of the route. *)
Theorem status_update_frame `{Postgres} (db : Db) (id : string) (b : gmap string JsVal) :
  let db' := fst (update_status db id b) in
  next_id db' = next_id db
  /\ map row_id (rows db') = map row_id (rows db)
  /\ (forall k, k <> "status" ->
                map (fun r => column r k) (rows db') = map (fun r => column r k) (rows db))
  /\ (forall n, int4_in id = Some n ->
                List.filter (fun r => negb (row_id r =? n)) (rows db')
                = List.filter (fun r => negb (row_id r =? n)) (rows db))
  /\ (int4_in id = None -> db' = db).
Proof.
  intros db'. subst db'.
  destruct (update_status_rows db id b) as [->|(n & I & ->)].
  - repeat split; auto.
  - simpl. split; [reflexivity|]. split; [|split; [|split]].
    + rewrite map_map. apply map_ext. intros r. apply set_status_id.
    + intros k N. rewrite map_map. apply map_ext. intros r.
      now apply set_status_column.
    + intros m Im. rewrite I in Im. inversion Im; subst m.
      induction (rows db) as [|x xs IH]; [reflexivity|]. simpl.
      rewrite set_status_id.
      destruct (row_id x =? n) eqn:E; simpl; [exact IH|].
      rewrite IH. f_equal. apply set_status_other.
      intros Ex. apply Z.eqb_neq in E. congruence.
    + intros N. congruence.
Qed.

(** ** Deleting one application *)

Lemma unlink_if_present_frame (fs fs' : Fs) (v : JsVal) (q : string) :
  unlink_if_present fs v = inr fs' -> v <> JStr q ->
  assoc q (entries fs') = assoc q (entries fs).
Proof.
  unfold unlink_if_present.
  destruct v as [| | | |path| | |]; try (intros E _; inversion E; reflexivity).
  destruct (truthy (JStr path) && existsSync fs path);
    [|intros E _; inversion E; reflexivity].
  unfold unlink. destruct (assoc path (entries fs)) as [[msg|]|]; try discriminate.
  intros E N. inversion E. rewrite assoc_remove_entry.
  destruct (String.eqb path q) eqn:Eq; [|reflexivity].
  apply String.eqb_eq in Eq. congruence.
Qed.

Lemma select_after_delete (rs : list Row) (k n m : Z) :
  select_by_id {| rows := List.filter (fun r => negb (row_id r =? n)) rs; next_id := k |} m
  = if m =? n then [] else select_by_id {| rows := rs; next_id := k |} m.
Proof.
  unfold select_by_id. simpl.
  induction rs as [|x xs IH]; simpl; [now destruct (m =? n)|].
  destruct (row_id x =? n) eqn:En; simpl.
  - rewrite IH. destruct (m =? n) eqn:Em; [reflexivity|].
    destruct (row_id x =? m) eqn:Ex; [|reflexivity].
    apply Z.eqb_eq in En, Ex. apply Z.eqb_neq in Em. congruence.
  - rewrite IH. destruct (m =? n) eqn:Em; [|reflexivity].
    destruct (row_id x =? m) eqn:Ex; [|reflexivity].
    apply Z.eqb_eq in Em, Ex. apply Z.eqb_neq in En. congruence.
Qed.

(** X11. Deleting an id that no row has answers 404 and touches neither
    the table nor the disk.  Deleting an existing one removes its rows and
    no other, after which a fetch of the id answers 404; on the disk
    nothing changes but, at most, the resume and the cover letter of that
    row, and this whether or not the unlinking failed. *)
Theorem delete_frame `{JsRuntime} `{Postgres} (db : Db) (fs : Fs) (id : string) (n : Z) :
  int4_in id = Some n ->
  ((forall r, In r (rows db) -> row_id r <> n) ->
   delete_application db fs id
   = (db, fs, not_found, [ "Application with ID " ++ id ++ " not found" ]))
  /\ (forall r rs,
         select_by_id db n = r :: rs ->
         let db' := fst (fst (fst (delete_application db fs id))) in
         let fs' := snd (fst (fst (delete_application db fs id))) in
         rows db' = List.filter (fun x => negb (row_id x =? n)) (rows db)
         /\ next_id db' = next_id db
         /\ get_application db' id = not_found
         /\ (forall m, m <> n -> select_by_id db' m = select_by_id db m)
         /\ (forall q, column r "resume_path" <> JStr q ->
                       column r "cover_letter_path" <> JStr q ->
                       assoc q (entries fs') = assoc q (entries fs))).
Proof.
  intros I. split.
  - intros Hn. unfold delete_application.
    now rewrite I, (select_by_id_none db n Hn).
  - intros r rs S db' fs'. subst db' fs'.
    unfold delete_application. rewrite I, S.
    set (kept := {| rows := List.filter (fun x => negb (row_id x =? n)) (rows db);
                    next_id := next_id db |}).
    assert (G : get_application kept id = not_found).
    { unfold get_application. rewrite I. unfold kept.
      rewrite select_after_delete, Z.eqb_refl. reflexivity. }
    assert (O : forall m, m <> n -> select_by_id kept m = select_by_id db m).
    { intros m Nm. unfold kept. rewrite select_after_delete.
      destruct (m =? n) eqn:E; [apply Z.eqb_eq in E; congruence | reflexivity]. }
    destruct (unlink_if_present fs (column r "resume_path")) as [msg|fs1] eqn:U1; simpl.
    { repeat split; auto. }
    destruct (unlink_if_present fs1 (column r "cover_letter_path")) as [msg|fs2] eqn:U2;
      simpl.
    + repeat split; auto. intros q N1 _.
      exact (unlink_if_present_frame fs fs1 _ q U1 N1).
    + repeat split; auto. intros q N1 N2.
      rewrite (unlink_if_present_frame fs1 fs2 _ q U2 N2).
      exact (unlink_if_present_frame fs fs1 _ q U1 N1).
Qed.

Lemma delete_frame_witness :
  @delete_application sample_postgres two_rows sample_disk "9"
  = (two_rows, sample_disk, not_found, [ "Application with ID 9 not found" ])
  /\ @get_application sample_runtime sample_postgres
       (fst (fst (fst (@delete_application sample_postgres two_rows sample_disk "2")))) "2"
     = not_found
  /\ select_by_id
       (fst (fst (fst (@delete_application sample_postgres two_rows sample_disk "2")))) 1
     = select_by_id two_rows 1.
Proof.
  split; [|split].
  - apply (@delete_frame sample_runtime sample_postgres two_rows sample_disk "9" 9 eq_refl).
    intros r Hin. simpl in Hin. destruct Hin as [<-|[<-|[]]]; discriminate.
  - apply (proj2 (@delete_frame sample_runtime sample_postgres two_rows sample_disk "2" 2
                    eq_refl) (sample_row 2 "ben@example.org") [] eq_refl).
  - apply (proj2 (@delete_frame sample_runtime sample_postgres two_rows sample_disk "2" 2
                    eq_refl) (sample_row 2 "ben@example.org") [] eq_refl).
    discriminate.
Defined.

(** ** Clearing *)

(** X12. After a clear the table is empty and the sequence restarts: every
    fetch answers 404, the list is empty, and a valid submission is
    accepted with id 1, even with an email that was in the table
    before. *)
Theorem clear_restarts `{JsRuntime} `{Postgres} (uploadDir : string) (db : Db) (fs : Fs) :
  let db0 := fst (fst (fst (clear_applications uploadDir db fs))) in
  (forall id n, int4_in id = Some n -> get_application db0 id = not_found)
  /\ (forall later, list_applications later db0 = ok [("applications", JArr [])])
  /\ (forall req now y i g e es rp cl xs ls v,
         Passes req y i g e es rp cl xs ls ->
         input_error (candidate (values (body req) y i g e es rp cl xs ls now)) = None ->
         jsonb_in (JSON_stringify (JArr es)) = Some v ->
         exists db1,
           submit db0 req now
           = (db1, ok [("id", JNum (pretty 1));
                       ("message", JStr "Application submitted successfully")])
           /\ length (rows db1) = 1%nat).
Proof.
  intros db0. subst db0.
  destruct (clear_always_succeeds uploadDir db fs) as (fs' & log & ->). simpl.
  split; [|split].
  - intros id n I. unfold get_application. now rewrite I.
  - reflexivity.
  - intros req now y i g e es rp cl xs ls v P In J.
    eexists. split.
    + apply (submit_accepted {| rows := []; next_id := 1 |} req now
               y i g e es rp cl xs ls v P In J). reflexivity.
    + reflexivity.
Qed.

Lemma clear_restarts_witness :
  let db1 := fst (@submit sample_runtime sample_postgres empty_db sample_request sample_now) in
  let db0 := fst (fst (fst (clear_applications sample_uploads db1 sample_disk))) in
  exists db2,
    @submit sample_runtime sample_postgres db0 sample_request sample_now
    = (db2, ok [("id", JNum (pretty 1));
                ("message", JStr "Application submitted successfully")])
    /\ length (rows db2) = 1%nat.
Proof.
  intros db1 db0.
  eapply (proj2 (proj2 (@clear_restarts sample_runtime sample_postgres sample_uploads db1
                          sample_disk))).
  - constructor; reflexivity.
  - reflexivity.
  - reflexivity.
Defined.

Lemma append_assoc (a b c : string) : (a ++ b) ++ c = a ++ (b ++ c).
Proof.
  induction a as [|x a IH]; [reflexivity|].
  change (String x ((a ++ b) ++ c) = String x (a ++ (b ++ c))). now rewrite IH.
Qed.

Lemma strip_prefix_spec (pre s r : string) :
  strip_prefix pre s = Some r <-> s = pre ++ r.
Proof.
  revert s. induction pre as [|a pre IH]; intros s.
  - change (EmptyString ++ r) with r. simpl. split; congruence.
  - change (String a pre ++ r) with (String a (pre ++ r)).
    destruct s as [|b s]; simpl; [split; discriminate|].
    destruct (Ascii.eqb a b) eqn:E.
    + apply Ascii.eqb_eq in E. subst b. rewrite IH. split; congruence.
    + apply Ascii.eqb_neq in E. split; [discriminate | congruence].
Qed.

Lemma assoc_in_keys {A : Type} (k : string) (v : A) (l : list (string * A)) :
  assoc k l = Some v -> exists e, In e l /\ fst e = k.
Proof.
  induction l as [|[k' a] l IH]; simpl; [discriminate|].
  destruct (String.eqb k k') eqn:E.
  - apply String.eqb_eq in E. subst k'. intros _. exists (k, a). auto.
  - intros S. destruct (IH S) as (e & Hin & Hk). exists e. auto.
Qed.

Lemma deletable_remove_entry (p q : string) (fs : Fs) :
  deletable (remove_entry p fs) q = if String.eqb p q then false else deletable fs q.
Proof.
  unfold deletable. rewrite assoc_remove_entry. now destruct (String.eqb p q).
Qed.

Lemma unlink_all_assoc (uploadDir : string) (names : list string) :
  forall (fs : Fs) (q : string),
    (deletable fs q = true -> In q (map (path_join uploadDir) names) ->
     assoc q (entries (fst (unlink_all uploadDir fs names))) = None)
    /\ (deletable fs q = false \/ ~ In q (map (path_join uploadDir) names) ->
        assoc q (entries (fst (unlink_all uploadDir fs names)))
        = assoc q (entries fs)).
Proof.
  induction names as [|file rest IH]; intros fs q.
  { simpl. split; [intros _ [] | reflexivity]. }
  cbn [unlink_all map].
  set (p := path_join uploadDir file).
  assert (Dp : deletable fs p = match unlink fs p with inl _ => false | inr _ => true end).
  { unfold deletable, unlink. now destruct (assoc p (entries fs)) as [[?|]|]. }
  assert (Up : forall fs1, unlink fs p = inr fs1 -> fs1 = remove_entry p fs).
  { unfold unlink. destruct (assoc p (entries fs)) as [[?|]|]; congruence. }
  destruct (unlink fs p) as [msg|fs1].
  - assert (F : fst (let '(fs', log) := unlink_all uploadDir fs rest in
                     (fs', ("Error deleting file: " ++ msg) :: log))
                = fst (unlink_all uploadDir fs rest)).
    { now destruct (unlink_all uploadDir fs rest). }
    rewrite F. destruct (IH fs q) as [I1 I2]. split.
    + intros D [<-|Hin]; [congruence | auto].
    + intros [D|N]; [auto|]. apply I2. right. intros Hin. apply N. now right.
  - rewrite (Up fs1 eq_refl). clear Up.
    destruct (IH (remove_entry p fs) q) as [I1 I2].
    destruct (String.eqb p q) eqn:E.
    + apply String.eqb_eq in E. subst q. split.
      * intros _ _. rewrite I2.
        -- rewrite assoc_remove_entry, String.eqb_refl. reflexivity.
        -- left. rewrite deletable_remove_entry, String.eqb_refl. reflexivity.
      * intros [D|N]; [congruence|]. exfalso. apply N. now left.
    + assert (Npq : p <> q) by now apply String.eqb_neq.
      assert (Dq : deletable (remove_entry p fs) q = deletable fs q).
      { now rewrite deletable_remove_entry, E. }
      assert (Aq : assoc q (entries (remove_entry p fs)) = assoc q (entries fs)).
      { now rewrite assoc_remove_entry, E. }
      rewrite Dq in I1, I2. rewrite Aq in I2. split.
      * intros D [Hp|Hin]; [congruence | auto].
      * intros [D|N]; [auto|]. apply I2. right. intros Hin. apply N. now right.
Qed.

Lemma readdir_lists (fs : Fs) (dir q : string) (names : list string) :
  readdir fs dir = inr names ->
  (exists e, In e (entries fs) /\ fst e = q) ->
  (In q (map (path_join dir) names) <-> directly_inside dir q = true).
Proof.
  unfold readdir. destruct (readdir_error fs); [discriminate|].
  intros E. injection E as <-. intros (e & He & Hq).
  unfold directly_inside. rewrite in_map_iff. split.
  - intros (nm & <- & Hin).
    apply list_elem_of_In, list_elem_of_omap in Hin.
    destruct Hin as (e' & _ & F).
    destruct (strip_prefix (dir ++ "/") (fst e')) as [nm'|] eqn:S; [|discriminate].
    destruct (has_slash nm' || String.eqb nm' EmptyString) eqn:B; [discriminate|].
    injection F as ->.
    assert (S' : strip_prefix (dir ++ "/") (path_join dir nm) = Some nm).
    { apply strip_prefix_spec. unfold path_join. now rewrite append_assoc. }
    now rewrite S', B.
  - destruct (strip_prefix (dir ++ "/") q) as [nm|] eqn:S; [|discriminate].
    intros B. apply negb_true_iff in B.
    exists nm. split.
    + apply strip_prefix_spec in S. unfold path_join. now rewrite S, append_assoc.
    + apply list_elem_of_In, list_elem_of_omap. exists e. split.
      * now apply list_elem_of_In.
      * now rewrite Hq, S, B.
Qed.

(** X13. When the upload directory can be read, a clear removes every
    file directly inside it that can be unlinked, and nothing else: the
    files that cannot be unlinked, the files in sub-directories and the
    files elsewhere stay as they were.  When the directory cannot be read,
    the disk stays as it was; either way the answer is the same success. *)
Theorem clear_removes_uploads (uploadDir : string) (db : Db) (fs : Fs) :
  let fs' := snd (fst (fst (clear_applications uploadDir db fs))) in
  (readdir_error fs = None ->
   forall q,
     assoc q (entries fs')
     = if directly_inside uploadDir q && deletable fs q then None
       else assoc q (entries fs))
  /\ (forall msg, readdir_error fs = Some msg ->
        clear_applications uploadDir db fs
        = ({| rows := []; next_id := 1 |}, fs,
           ok [("message", JStr "All applications cleared successfully")],
           [ "Error reading upload directory: " ++ msg ])).
Proof.
  intros fs'. subst fs'. split.
  - intros R q. unfold clear_applications.
    destruct (readdir fs uploadDir) as [msg|names] eqn:E.
    { unfold readdir in E. rewrite R in E. discriminate. }
    assert (F : snd (fst (fst (let '(fs', log) := unlink_all uploadDir fs names in
                               ({| rows := []; next_id := 1 |}, fs',
                                ok [("message",
                                     JStr "All applications cleared successfully")],
                                log))))
                = fst (unlink_all uploadDir fs names)).
    { now destruct (unlink_all uploadDir fs names). }
    rewrite F. clear F.
    destruct (unlink_all_assoc uploadDir names fs q) as [I1 I2].
    destruct (deletable fs q) eqn:D.
    + assert (K : exists e, In e (entries fs) /\ fst e = q).
      { unfold deletable in D.
        destruct (assoc q (entries fs)) as [v|] eqn:A; [|discriminate].
        exact (assoc_in_keys q v _ A). }
      pose proof (readdir_lists fs uploadDir q names E K) as L.
      destruct (directly_inside uploadDir q) eqn:B; simpl.
      * apply I1; [reflexivity | now apply L].
      * apply I2. right. intros Hin. apply L in Hin. discriminate.
    + rewrite andb_false_r. apply I2. now left.
  - intros msg R. unfold clear_applications, readdir. now rewrite R.
Qed.

Lemma clear_removes_uploads_witness :
  let fs' := snd (fst (fst (clear_applications sample_uploads two_rows sample_disk))) in
  assoc "/srv/Uploads/resume-2.pdf" (entries fs') = None
  /\ assoc "/srv/Uploads/resume-1.pdf" (entries fs')
     = assoc "/srv/Uploads/resume-1.pdf" (entries sample_disk).
Proof.
  intros fs'. subst fs'. split.
  - exact (proj1 (clear_removes_uploads sample_uploads two_rows sample_disk) eq_refl
             "/srv/Uploads/resume-2.pdf").
  - exact (proj1 (clear_removes_uploads sample_uploads two_rows sample_disk) eq_refl
             "/srv/Uploads/resume-1.pdf").
Defined.

(** ** What the synchroniser sends *)

Lemma plan_statement (ms : list Column) (q : Statement) :
  In q (plan ms) -> exists m, In m ms /\ statement_column q = Some (name m).
Proof.
  unfold plan. rewrite in_flat_map. intros (m & Hm & Hq). exists m. split; [exact Hm|].
  unfold statements_for in Hq. destruct Hq as [<-|Hq]; [reflexivity|].
  apply in_app_or in Hq. destruct Hq as [Hq|Hq].
  - destruct (backfills m); [|destruct Hq]. now destruct Hq as [<-|[]].
  - destruct (not_nullable m); [|destruct Hq]. now destruct Hq as [<-|[]].
Qed.

Lemma missingColumns_spec (names : list string) (m : Column) :
  In m (missingColumns names) <-> In m expectedColumns /\ ~ In (name m) names.
Proof.
  unfold missingColumns. rewrite filter_In, negb_true_iff.
  split; intros [Hm Hn]; (split; [exact Hm|]).
  - intros Hin. assert (existsb (String.eqb (name m)) names = true) as Hx.
    { apply existsb_exists. exists (name m). split; [exact Hin | apply String.eqb_refl]. }
    congruence.
  - destruct (existsb (String.eqb (name m)) names) eqn:Hx; [|reflexivity].
    apply existsb_exists in Hx. destruct Hx as (x & Hin & Ex).
    apply String.eqb_eq in Ex. subst x. contradiction.
Qed.

Lemma missingColumns_none (names : list string) :
  (forall m, In m expectedColumns -> In (name m) names) -> missingColumns names = [].
Proof.
  intros Hall. destruct (missingColumns names) as [|m ms] eqn:E; [reflexivity|].
  assert (In m (missingColumns names)) as Hin by (rewrite E; now left).
  apply missingColumns_spec in Hin. destruct Hin as [Hm Hn]. now apply Hall in Hm.
Qed.

Section SyncFacts.
Variable Catalog : Type.
Variable exec : Statement -> Catalog -> string + Catalog.
Variable existing : Catalog -> string + list string.

(** What was sent is the plan or the start of it. *)
Lemma sync_issued_prefix (c : Catalog) (names : list string) :
  existing c = inr names ->
  exists rest,
    plan (missingColumns names)
    = (issued (syncApplicationsTable Catalog exec existing c) ++ rest)%list.
Proof.
  intros E. unfold syncApplicationsTable. rewrite E.
  destruct (add_columns_spec Catalog exec (missingColumns names) c)
    as [[c' A]|(c' & before & q & rest & msg & done & Pl & A & _)]; rewrite A; simpl.
  - exists []. now rewrite app_nil_r.
  - exists rest. now rewrite Pl, <- app_assoc.
Qed.

Lemma sync_issued_missing (c : Catalog) (names : list string) (q : Statement) :
  existing c = inr names ->
  In q (issued (syncApplicationsTable Catalog exec existing c)) ->
  exists m, In m expectedColumns /\ statement_column q = Some (name m)
            /\ ~ In (name m) names.
Proof.
  intros E Hq. destruct (sync_issued_prefix c names E) as [rest P].
  assert (In q (plan (missingColumns names))) as Hp.
  { rewrite P. apply in_or_app. now left. }
  destruct (plan_statement _ q Hp) as (m & Hm & Sq).
  apply missingColumns_spec in Hm. exists m. tauto.
Qed.

End SyncFacts.

(** X14. The synchroniser only ever sends statements about expected
    columns that the catalog lacks: it never creates the table and never
    alters a column that exists.  On a catalog that has every expected
    column it sends nothing, writes nothing and leaves the catalog as it
    is; and when the catalog cannot be read it sends nothing either. *)
Theorem sync_adds_only_missing
        (Catalog : Type) (exec : Statement -> Catalog -> string + Catalog)
        (existing : Catalog -> string + list string) (c : Catalog) :
  let r := syncApplicationsTable Catalog exec existing c in
  (forall names q,
      existing c = inr names -> In q (issued r) ->
      exists m, In m expectedColumns /\ statement_column q = Some (name m)
                /\ ~ In (name m) names)
  /\ (forall names,
         existing c = inr names ->
         (forall m, In m expectedColumns -> In (name m) names) ->
         r = {| catalog := c; issued := []; console := []; settled := Resolved |})
  /\ (forall msg,
         existing c = inl msg -> catalog r = c /\ issued r = []).
Proof.
  intros r. subst r. split; [|split].
  - intros names q E Hq. exact (sync_issued_missing Catalog exec existing c names q E Hq).
  - intros names E Hall. unfold syncApplicationsTable.
    now rewrite E, (missingColumns_none names Hall).
  - intros msg E. unfold syncApplicationsTable. now rewrite E.
Qed.

Lemma sync_adds_only_missing_witness :
  syncApplicationsTable (list string) sample_exec sample_existing
    (map name expectedColumns)
  = {| catalog := map name expectedColumns; issued := []; console := [];
       settled := Resolved |}
  /\ exists m, In m expectedColumns
               /\ statement_column (AddColumn "dob" "DATE" "DEFAULT 1970-01-01")
                  = Some (name m)
               /\ ~ In (name m) sample_catalog.
Proof.
  split.
  - apply (proj1 (proj2 (sync_adds_only_missing (list string) sample_exec sample_existing
                           (map name expectedColumns)))
             (map name expectedColumns) eq_refl).
    intros m Hm. now apply in_map.
  - apply (proj1 (sync_adds_only_missing (list string) sample_exec sample_existing
                    sample_catalog) sample_catalog _ eq_refl).
    vm_compute. now left.
Defined.

(** Every expected column that is declared not nullable has a default to
    fill the existing rows with. *)
Lemma not_nullable_backfills (m : Column) :
  In m expectedColumns -> not_nullable m = true -> backfills m = true.
Proof.
  intros Hm. apply list_elem_of_In in Hm. revert m Hm.
  apply (proj1 (Forall_forall
                  (fun m => not_nullable m = true -> backfills m = true) expectedColumns)).
  vm_compute. repeat (constructor; [try reflexivity; try discriminate|]). constructor.
Qed.

Lemma statements_for_order (m : Column) (pre post : list Statement) (n : string) :
  (not_nullable m = true -> backfills m = true) ->
  statements_for m = (pre ++ SetNotNull n :: post)%list ->
  exists v, pre = [ AddColumn n (type m) (default_clause m); Backfill n v ].
Proof.
  intros B. unfold statements_for.
  destruct (not_nullable m) eqn:N.
  - rewrite (B eq_refl). intros E.
    destruct pre as [|a [|b [|x pre]]]; simpl in E; try discriminate.
    + injection E as <- <- <- _. eauto.
    + injection E as _ _ E. now destruct pre.
  - destruct (backfills m); intros E.
    + destruct pre as [|a [|b [|x pre]]]; simpl in E; discriminate.
    + destruct pre as [|a [|b pre]]; simpl in E; discriminate.
Qed.

Lemma plan_order (ms : list Column) (pre post : list Statement) (n : string) :
  Forall (fun m => In m expectedColumns) ms ->
  plan ms = (pre ++ SetNotNull n :: post)%list ->
  exists before t d v, pre = (before ++ [ AddColumn n t d; Backfill n v ])%list.
Proof.
  revert pre. induction ms as [|m ms IH]; intros pre F E.
  { now destruct pre. }
  apply Forall_cons in F. destruct F as [Hm F].
  unfold plan in E. cbn [flat_map] in E. fold (plan ms) in E.
  apply app_eq_app in E. destruct E as [l [[E1 E2]|[E1 E2]]].
  - destruct l as [|x l].
    + simpl in E2. destruct (IH [] F (eq_sym E2)) as (before & t & d & v & Eb).
      now destruct before.
    + simpl in E2. injection E2 as <- E2.
      destruct (statements_for_order m pre l n (not_nullable_backfills m Hm) E1) as [v ->].
      exists [], (type m), (default_clause m), v. reflexivity.
  - destruct (IH l F E2) as (before & t & d & v & ->).
    exists (statements_for m ++ before)%list, t, d, v.
    now rewrite E1, <- app_assoc.
Qed.

(** X15. A column is declared [NOT NULL] only right after it was added
    and its existing rows were filled with the default: in what the
    synchroniser sends, a [SET NOT NULL] always comes right after the
    [ADD COLUMN] and the [UPDATE] of the same column. *)
Theorem not_null_follows_backfill
        (Catalog : Type) (exec : Statement -> Catalog -> string + Catalog)
        (existing : Catalog -> string + list string) (c : Catalog)
        (pre post : list Statement) (n : string) :
  issued (syncApplicationsTable Catalog exec existing c)
  = (pre ++ SetNotNull n :: post)%list ->
  exists before t d v, pre = (before ++ [ AddColumn n t d; Backfill n v ])%list.
Proof.
  intros E.
  destruct (existing c) as [msg|names] eqn:Ex.
  { unfold syncApplicationsTable in E. rewrite Ex in E. simpl in E. now destruct pre. }
  destruct (sync_issued_prefix Catalog exec existing c names Ex) as [rest P].
  rewrite E, <- app_assoc in P. simpl in P.
  apply (plan_order (missingColumns names) pre (post ++ rest)%list n); [|exact P].
  apply Forall_forall. intros m Hm. apply list_elem_of_In in Hm.
  now apply missingColumns_spec in Hm.
Qed.

Lemma not_null_follows_backfill_witness :
  exists before t d v,
    [ AddColumn "email" "VARCHAR(255)" EmptyString;
      Backfill "email" (JStr EmptyString) ]
    = (before ++ [ AddColumn "email" t d; Backfill "email" v ])%list.
Proof.
  apply (not_null_follows_backfill (list string)
           (fun q c => inr c) (fun c => inr c)
           (List.filter (fun n => negb (String.eqb n "email") && negb (String.eqb n "status"))
                        (map name expectedColumns))
           _ [ AddColumn "status" "VARCHAR(50)" "DEFAULT 'Pending'";
               Backfill "status" (JStr "Pending") ] "email").
  vm_compute. reflexivity.
Defined.

(** X16. The start sends nothing when the connection fails.  Otherwise
    it sends [CREATE TABLE] first and once; when that fails it sends
    nothing more, the synchroniser being skipped, and when it succeeds
    every further statement is about an expected column missing from the
    catalog as the creation left it. *)
Theorem startup_statements
        (Catalog : Type) (exec : Statement -> Catalog -> string + Catalog)
        (existing : Catalog -> string + list string) (c : Catalog)
        (connect_error : option string) :
  let s := after Catalog (startup Catalog exec existing connect_error c) in
  (connect_error <> None /\ issued s = [] /\ catalog s = c)
  \/ (connect_error = None
      /\ exists l,
          issued s = CreateTable :: l
          /\ (forall msg, exec CreateTable c = inl msg -> l = [] /\ catalog s = c)
          /\ (forall c1 names q,
                 exec CreateTable c = inr c1 -> existing c1 = inr names -> In q l ->
                 exists m, In m expectedColumns /\ statement_column q = Some (name m)
                           /\ ~ In (name m) names)).
Proof.
  intros s. subst s. destruct connect_error as [msg|].
  { left. simpl. repeat split. discriminate. }
  right. split; [reflexivity|].
  unfold startup, createApplicationsTable. cbn [after].
  destruct (exec CreateTable c) as [msg|c1] eqn:E; cbn [settled issued catalog].
  - exists []. split; [reflexivity|]. split; [auto | discriminate].
  - exists (issued (syncApplicationsTable Catalog exec existing c1)).
    split; [reflexivity|]. split; [discriminate|].
    intros c1' names q E1 Ex Hq. injection E1 as <-.
    exact (sync_issued_missing Catalog exec existing c1 names q Ex Hq).
Qed.

(** ** Origins, uploads and the error handler *)

(** X17. A request is let through when it names no origin or one of the
    two allowed origins, and only then; any other origin is answered 403
    with the error "CORS policy violation". *)
Theorem origin_gate_spec (origin : JsVal) :
  (origin_gate origin = None
   <-> truthy origin = false
       \/ origin = JStr "http://localhost:3000"
       \/ origin = JStr "http://localhost:3001")
  /\ (origin_gate origin <> None ->
      origin_gate origin
      = Some {| status := 403; payload := json_false_error "CORS policy violation" |}).
Proof.
  unfold origin_gate, cors_origin.
  destruct (truthy origin) eqn:T; cbn [negb].
  2:{ split; [split; auto | intros N; now contradiction N]. }
  destruct origin as [| |b|r|s|l|l|l];
    try (split; [split; [discriminate | intros [C|[C|C]]; discriminate]
                | intros _; reflexivity]).
  unfold allowedOrigins. cbn [existsb].
  destruct (String.eqb s "http://localhost:3000") eqn:E1.
  { apply String.eqb_eq in E1. subst s. split; [split; auto | intros N; now contradiction N]. }
  destruct (String.eqb s "http://localhost:3001") eqn:E2.
  { apply String.eqb_eq in E2. subst s. split; [split; auto | intros N; now contradiction N]. }
  cbn [orb]. apply String.eqb_neq in E1, E2.
  split; [|intros _; reflexivity].
  split; [discriminate|]. intros [C|[C|C]]; congruence.
Qed.

(** X18. An upload that is not declared as PDF is refused with status
    500 and the error "Something went wrong!": the message of the file
    filter never reaches the client, and the status is never 400, which
    the error handler keeps for the errors of multer itself. *)
Theorem upload_gate_spec (file : Upload) :
  (mimetype file = "application/pdf" -> upload_gate file = None)
  /\ (mimetype file <> "application/pdf" ->
      upload_gate file = Some (server_error "Something went wrong!"))
  /\ (forall err, status (error_handler err) = 400%nat <-> exists msg, err = MulterError msg).
Proof.
  unfold upload_gate, fileFilter. split; [|split].
  - intros ->. reflexivity.
  - intros N. apply String.eqb_neq in N. rewrite N. reflexivity.
  - intros [msg|msg]; simpl.
    + split; eauto.
    + split; [|intros [m E]; discriminate].
      destruct (String.eqb msg "Not allowed by CORS"); discriminate.
Qed.

Lemma upload_gate_spec_witness :
  upload_gate {| fieldname := "resume"; originalname := "cv.docx";
                 mimetype := "application/msword" |}
  = Some (server_error "Something went wrong!")
  /\ upload_gate {| fieldname := "resume"; originalname := "cv.pdf";
                    mimetype := "application/pdf" |} = None.
Proof.
  split.
  - apply (proj1 (proj2 (upload_gate_spec _))). discriminate.
  - apply (proj1 (upload_gate_spec _)). reflexivity.
Defined.

(** X19. Two stored names for the same form field are equal only when
    they were made at the same millisecond with the same random number,
    for files of the same extension. *)
Theorem filename_injective (f f' : Upload) (now rnd now' rnd' : Z) (ext ext' : string) :
  fieldname f = fieldname f' ->
  starts_with_digit ext = false ->
  starts_with_digit ext' = false ->
  filename f now rnd ext = filename f' now' rnd' ext' ->
  now = now' /\ rnd = rnd' /\ ext = ext'.
Proof.
  intros Ef S S' E. unfold filename in E. rewrite Ef in E.
  apply String.app_inj in E. apply String.app_inj in E.
  rewrite !append_assoc in E.
  assert (N : now = now').
  { apply (f_equal read_integer) in E.
    rewrite !read_integer_prefix in E by reflexivity. congruence. }
  subst now'. apply String.app_inj in E. apply String.app_inj in E.
  assert (R : rnd = rnd').
  { apply (f_equal read_integer) in E.
    rewrite !read_integer_prefix in E by assumption. congruence. }
  subst rnd'. apply String.app_inj in E. auto.
Qed.

Lemma filename_injective_witness :
  filename {| fieldname := "resume"; originalname := "cv.pdf";
              mimetype := "application/pdf" |} 1700000000000 123456789 ".pdf"
  = "resume-1700000000000-123456789.pdf"
  /\ (filename {| fieldname := "resume"; originalname := "cv.pdf";
                  mimetype := "application/pdf" |} 1700000000000 123456789 ".pdf"
      = filename {| fieldname := "resume"; originalname := "other.pdf";
                    mimetype := "application/pdf" |} 1700000000000 123456789 ".pdf" ->
      1700000000000 = 1700000000000 /\ 123456789 = 123456789 /\ ".pdf" = ".pdf").
Proof.
  split; [reflexivity|].
  apply filename_injective; reflexivity.
Defined.

(** ** Downloads and the list *)

(** X20. The download handler sends a file exactly when the type is
    [resume] or [cover_letter], the id reads as an integer, a row has that
    id, its path column of that type holds a text that is not empty, and
    the file is on the disk; the file sent is the one the column names. *)
Theorem download_sends_file `{Postgres} (db : Db) (fs : Fs) (type id path : string) :
  download db fs type id = SendFile path
  <-> (type = "resume" \/ type = "cover_letter")
      /\ exists n r rs,
          int4_in id = Some n
          /\ select_by_id db n = r :: rs
          /\ column r (type ++ "_path") = JStr path
          /\ path <> EmptyString
          /\ existsSync fs path = true.
Proof.
  unfold download. cbn [existsb]. split.
  - intros D.
    assert (Ty : type = "resume" \/ type = "cover_letter").
    { destruct (String.eqb type "resume") eqn:E1; [left; now apply String.eqb_eq|].
      destruct (String.eqb type "cover_letter") eqn:E2; [right; now apply String.eqb_eq|].
      discriminate. }
    split; [exact Ty|].
    destruct (negb _); [discriminate|].
    destruct (int4_in id) as [n|] eqn:I; [|discriminate].
    destruct (select_by_id db n) as [|r rs] eqn:S; [discriminate|].
    exists n, r, rs.
    destruct (column r (type ++ "_path")) as [| |b|x|s|l|l|l] eqn:C;
      try (destruct (negb (truthy _)); discriminate).
    destruct (String.eqb s EmptyString) eqn:T; simpl in D; rewrite T in D;
      [discriminate|].
    simpl in D. destruct (existsSync fs s) eqn:X; [|discriminate].
    injection D as <-. apply String.eqb_neq in T. auto.
  - intros [Ty (n & r & rs & I & S & C & Ne & X)].
    assert (G : negb (String.eqb type "resume" || (String.eqb type "cover_letter" || false))
                = false).
    { destruct Ty as [-> | ->]; reflexivity. }
    rewrite G, I, S, C. simpl.
    apply String.eqb_neq in Ne. now rewrite Ne, X.
Qed.

Lemma download_sends_file_witness :
  @download sample_postgres two_rows sample_disk "resume" "2"
  = SendFile "/srv/Uploads/resume-2.pdf".
Proof.
  apply (proj2 (@download_sends_file sample_postgres two_rows sample_disk "resume" "2"
                  "/srv/Uploads/resume-2.pdf")).
  split; [now left|].
  exists 2, (sample_row 2 "ben@example.org"), []. repeat split. discriminate.
Defined.

Section ListingFacts.
Variable later : JsVal -> JsVal -> bool.
Hypothesis later_total : forall a b, later a b = false -> later b a = true.

Lemma insert_desc_perm (r : Row) (l : list Row) :
  Permutation (insert_desc later r l) (r :: l).
Proof.
  induction l as [|x xs IH]; simpl; [reflexivity|].
  destruct (later _ _); [reflexivity|].
  rewrite IH. apply perm_swap.
Qed.

Lemma order_by_date_desc_perm (l : list Row) :
  Permutation (order_by_date_desc later l) l.
Proof.
  induction l as [|x xs IH]; simpl; [reflexivity|].
  rewrite insert_desc_perm. now constructor.
Qed.

Lemma insert_desc_head (x r : Row) (l : list Row) :
  not_before later x r -> HdRel (not_before later) x l ->
  HdRel (not_before later) x (insert_desc later r l).
Proof.
  intros Hr Hl. destruct l as [|y ys]; simpl; [now constructor|].
  destruct (later _ _); constructor; [exact Hr|].
  now inversion Hl.
Qed.

Lemma insert_desc_sorted (r : Row) (l : list Row) :
  Sorted (not_before later) l -> Sorted (not_before later) (insert_desc later r l).
Proof.
  induction l as [|x xs IH]; simpl; intros S.
  - repeat constructor.
  - destruct (later (column r "submission_date") (column x "submission_date")) eqn:L.
    + constructor; [exact S|]. now constructor.
    + inversion S as [|? ? S' H']; subst. constructor; [now apply IH|].
      apply insert_desc_head; [|exact H']. now apply later_total.
Qed.

Lemma order_by_date_desc_sorted (l : list Row) :
  Sorted (not_before later) (order_by_date_desc later l).
Proof.
  induction l as [|x xs IH]; simpl; [constructor|].
  now apply insert_desc_sorted.
Qed.

End ListingFacts.

(** X21. The list handler answers with every row of the table, each
    once, as its summary of eight columns, none of them earlier in the
    list than a row submitted later. *)
Theorem list_is_sorted_table (later : JsVal -> JsVal -> bool) (db : Db) :
  (forall a b, later a b = false -> later b a = true) ->
  exists l,
    list_applications later db = ok [("applications", JArr (map summary l))]
    /\ Permutation l (rows db)
    /\ Sorted (not_before later) l
    /\ (forall r, In r l ->
          exists props, summary r = JObj props
                        /\ map fst props = "id" :: summary_columns).
Proof.
  intros T. exists (order_by_date_desc later (rows db)).
  split; [reflexivity|]. split; [apply order_by_date_desc_perm|].
  split; [now apply order_by_date_desc_sorted|].
  intros r _. eexists. split; [reflexivity|]. reflexivity.
Qed.

Lemma list_is_sorted_table_witness :
  exists l,
    list_applications sample_later dated_rows
    = ok [("applications", JArr (map summary l))]
    /\ Permutation l (rows dated_rows)
    /\ Sorted (not_before sample_later) l
    /\ (forall r, In r l ->
          exists props, summary r = JObj props
                        /\ map fst props = "id" :: summary_columns).
Proof.
  apply (list_is_sorted_table sample_later dated_rows).
  intros a b. unfold sample_later.
  destruct a as [| | | |x| | |]; try discriminate.
  destruct b as [| | | |y| | |]; try discriminate.
  intros L. destruct (String.leb_total y x) as [E|E]; congruence.
Defined.
